(** * Quiz fan-out / merge pipeline: a shallow embedding and its properties

    The development follows the backend of the quiz generator:

    - [backend/utils/transcriptUtils.js]: [splitTranscriptIntoChunks],
      [calculateOptimalChunks], [distributeQuestionsAcrossChunks] and
      [mergeChunkQuizzes];
    - [backend/models/TranscriptCache.js]: the cache document and its
      [updateAccess] method;
    - [backend/server.js]: [getVideoInfo], [generateQuizFromChunk] and
      [generateQuiz].

    JavaScript values are a small inductive type, objects are finite maps
    from property names to values, [Set] is a finite set of strings, and
    exceptions are an error monad.  The two collaborators that are not
    part of the repository, the generative model and [JSON.parse], are
    function arguments of the definitions that call them. *)

From Stdlib Require Import ZArith Ascii String List Lia Bool.
From stdpp Require Import gmap strings list fin_maps.

#[local] Set Warnings "-register-all".
#[local] Open Scope Z_scope.

(** ** JavaScript values, exceptions and the string primitives in use *)

Module JS.

(** Values that [JSON.parse] can produce, plus [undefined].  Numbers are
    restricted to integers; none of the functions below does arithmetic
    on a parsed number. *)
Inductive JSValue : Type :=
  | JUndefined
  | JNull
  | JBool (b : bool)
  | JNum (n : Z)
  | JStr (s : string)
  | JArr (l : list JSValue)
  | JObj (o : gmap string JSValue).

Inductive JsError : Type :=
  | TypeError
  | SyntaxError
  | ExternalError (msg : string).

(** A computation either returns or throws. *)
Inductive result (A : Type) : Type :=
  | Ok (a : A)
  | Throw (e : JsError).

Arguments Ok {A} a.
Arguments Throw {A} e.

Definition bind {A B} (r : result A) (k : A -> result B) : result B :=
  match r with
  | Ok a => k a
  | Throw e => Throw e
  end.

(** [try { r } catch (err) { handler err }] *)
Definition tryCatch {A} (r : result A) (handler : JsError -> result A) : result A :=
  match r with
  | Ok a => Ok a
  | Throw e => handler e
  end.

Fixpoint foldM {A S} (f : S -> A -> result S) (l : list A) (s : S) : result S :=
  match l with
  | [] => Ok s
  | x :: rest => bind (f s x) (foldM f rest)
  end.

(** [arr.map((x, idx) => f idx x)] where the callback may throw; [idx]
    is the index of the first element of [l]. *)
Fixpoint mapM_from {A B} (f : Z -> A -> result B) (idx : Z) (l : list A) : result (list B) :=
  match l with
  | [] => Ok []
  | x :: rest =>
      bind (f idx x) (fun y =>
      bind (mapM_from f (idx + 1) rest) (fun ys => Ok (y :: ys)))
  end.

(** Truthiness, as used by [||]. *)
Definition truthy (v : JSValue) : bool :=
  match v with
  | JUndefined | JNull => false
  | JBool b => b
  | JNum n => negb (Z.eqb n 0)
  | JStr s => negb (String.eqb s "")
  | JArr _ | JObj _ => true
  end.

(** [a || b] *)
Definition orElse (a b : JSValue) : JSValue := if truthy a then a else b.

(** Property read [v.k].  Reading from [undefined] or [null] throws;
    an object yields the stored value or [undefined].  Primitives and
    arrays own none of the property names this program reads
    ([question], [options], [correct_answer], [correctAnswer],
    [topic]), so they yield [undefined]. *)
Definition getProp (v : JSValue) (k : string) : result JSValue :=
  match v with
  | JUndefined | JNull => Throw TypeError
  | JObj o => Ok (default JUndefined (o !! k))
  | _ => Ok JUndefined
  end.

(** Receiver of a string method ([toLowerCase], [replace]): applying
    the method to anything that is not a string throws. *)
Definition asString (v : JSValue) : result string :=
  match v with
  | JStr s => Ok s
  | _ => Throw TypeError
  end.

(** Receiver of [.map]: only arrays have it. *)
Definition asArray (v : JSValue) : result (list JSValue) :=
  match v with
  | JArr l => Ok l
  | _ => Throw TypeError
  end.

(** Object spread [{...v}]; only reached with objects in this program. *)
Definition spread (v : JSValue) : gmap string JSValue :=
  match v with
  | JObj o => o
  | _ => ∅
  end.

(** Strings are sequences of code units below 256 (Latin-1). *)

(** White space of [String.prototype.trim] and of the regular
    expression class [\s], restricted to code units below 256:
    TAB, LF, VT, FF, CR, SPACE and NO-BREAK SPACE. *)
Definition isWhitespace (c : ascii) : bool :=
  let n := nat_of_ascii c in
  ((9 <=? n) && (n <=? 13) || (n =? 32) || (n =? 160))%nat.

Definition toLowerChar (c : ascii) : ascii :=
  let n := nat_of_ascii c in
  if ((65 <=? n) && (n <=? 90)
      || (192 <=? n) && (n <=? 222) && negb (n =? 215))%nat
  then ascii_of_nat (n + 32)
  else c.

Fixpoint toLowerCase (s : string) : string :=
  match s with
  | EmptyString => EmptyString
  | String c rest => String (toLowerChar c) (toLowerCase rest)
  end.

Fixpoint dropWhile (p : ascii -> bool) (s : string) : string :=
  match s with
  | EmptyString => EmptyString
  | String c rest => if p c then dropWhile p rest else s
  end.

Definition trimStart (s : string) : string := dropWhile isWhitespace s.

Fixpoint trimEnd (s : string) : string :=
  match s with
  | EmptyString => EmptyString
  | String c rest =>
      match trimEnd rest with
      | EmptyString => if isWhitespace c then EmptyString else String c EmptyString
      | kept => String c kept
      end
  end.

Definition trim (s : string) : string := trimEnd (trimStart s).

Fixpoint revAppend (acc s : string) : string :=
  match acc with
  | EmptyString => s
  | String c rest => revAppend rest (String c s)
  end.

(** [s.split(/\s+/)]: the pieces between maximal runs of white space;
    a run at either end leaves an empty piece there, and the empty
    string gives one empty piece.  [cur] is the current piece, reversed;
    [inRun] tells whether the previous code unit was white space. *)
Fixpoint splitWhitespaceFrom (s cur : string) (inRun : bool) : list string :=
  match s with
  | EmptyString => [revAppend cur EmptyString]
  | String c rest =>
      if isWhitespace c
      then if inRun
           then splitWhitespaceFrom rest cur true
           else revAppend cur EmptyString :: splitWhitespaceFrom rest EmptyString true
      else splitWhitespaceFrom rest (String c cur) false
  end.

Definition splitWhitespace (s : string) : list string :=
  splitWhitespaceFrom s EmptyString false.

(** [words.join(sep)] *)
Fixpoint join (sep : string) (words : list string) : string :=
  match words with
  | [] => EmptyString
  | [w] => w
  | w :: rest => w +:+ sep +:+ join sep rest
  end.

(** [arr.slice(0, stop)]: a negative [stop] counts from the end. *)
Definition slice0 {A} (l : list A) (stop : Z) : list A :=
  if stop <? 0
  then take (Z.to_nat (Z.max (Z.of_nat (length l) + stop) 0)) l
  else take (Z.to_nat stop) l.

(** [arr.slice(start, stop)] for [0 <= start] and [0 <= stop]. *)
Definition slice {A} (l : list A) (start stop : Z) : list A :=
  take (Z.to_nat (stop - start)) (drop (Z.to_nat start) l).

(** Numbers are doubles in the source.  The integers of the program
    are embedded as [Z]; the embedding is exact for the integers up to
    [Number.MAX_SAFE_INTEGER] in magnitude: each of them is a double,
    [%] and the sum of two of them (when it stays in range) are
    computed exactly, and [Math.floor] of their rounded quotient is
    their integer quotient.  Beyond that range doubles round, and the
    statements about arithmetic on arbitrary inputs assume
    [isSafeInteger]. *)
Definition MAX_SAFE_INTEGER : Z := 2 ^ 53 - 1.

(** [Number.isSafeInteger(n)] for an integer [n]. *)
Definition isSafeInteger (n : Z) : Prop :=
  - MAX_SAFE_INTEGER <= n <= MAX_SAFE_INTEGER.

(** The largest length of an array: [push] throws a [RangeError] past it. *)
Definition MAX_ARRAY_LENGTH : Z := 2 ^ 32 - 1.

End JS.

Export JS.

Declare Scope js_scope.
Notation "'let*' x ':=' r 'in' k" := (bind r (fun x => k))
  (at level 10, x name, r at level 100, k at level 200) : js_scope.
#[local] Open Scope js_scope.

(** ** backend/utils/transcriptUtils.js *)

Module TranscriptUtils.

(** [Math.ceil(a / b)] for [b <> 0]. *)
Definition ceilDiv (a b : Z) : Z := - ((- a) / b).

(** One iteration of the splitting loop: the chunk for index [i]. *)
Definition chunkAt (words : list string) (wordsPerChunk i : Z) : string :=
  let start := i * wordsPerChunk in
  let stop := Z.min (start + wordsPerChunk) (Z.of_nat (length words)) in
  join " " (slice words start stop).

Definition splitTranscriptIntoChunks (transcript : string) (numChunks : Z) : list string :=
  if Z.of_nat (String.length transcript) =? 0 then []
  else if Z.of_nat (String.length transcript) <? 5000 then [transcript]
  else
    let words := splitWhitespace transcript in
    let wordsPerChunk := ceilDiv (Z.of_nat (length words)) numChunks in
    filter (fun chunk => 0 < Z.of_nat (String.length (trim chunk)))
           (map (chunkAt words wordsPerChunk) (seqZ 0 numChunks)).

Definition calculateOptimalChunks (transcriptLength : Z) : Z :=
  if transcriptLength <? 5000 then 1
  else if transcriptLength <? 20000 then 2
  else if transcriptLength <? 40000 then 3
  else if transcriptLength <? 60000 then 4
  else if transcriptLength <? 80000 then 5
  else 6.

(** [Math.floor(totalQuestions / numChunks)] is [Z.div] and [%] is
    [Z.rem] (the sign of the dividend).  The loop body runs only for
    [0 < numChunks].  The quotient is a quotient of doubles in the
    source: the definition is exact for a total that [isSafeInteger]
    and a chunk count of at most [MAX_ARRAY_LENGTH], and the statements
    about the quotas assume both. *)
Definition distributeQuestionsAcrossChunks (totalQuestions numChunks : Z) : list Z :=
  let baseQuestions := totalQuestions / numChunks in
  let remainder := Z.rem totalQuestions numChunks in
  map (fun i => baseQuestions + (if i <? remainder then 1 else 0))
      (seqZ 0 numChunks).

(** The three loop variables of [mergeChunkQuizzes]. *)
Record MergeState : Type := mkMergeState {
  allQuestions : list JSValue;
  seenQuestions : gset string;
  questionId : Z
}.

Definition mergeInit : MergeState :=
  {| allQuestions := []; seenQuestions := ∅; questionId := 1 |}.

(** [question.question.toLowerCase().trim()] *)
Definition normalizedQuestionOf (question : JSValue) : result string :=
  let* text := getProp question "question" in
  let* s := asString text in
  Ok (trim (toLowerCase s)).

(** Body of the inner loop. *)
Definition mergeQuestion (st : MergeState) (question : JSValue) : result MergeState :=
  let* normalizedQuestion := normalizedQuestionOf question in
  if decide (normalizedQuestion ∈ seenQuestions st) then Ok st
  else Ok {| allQuestions :=
               allQuestions st ++
                 [JObj (<["questionId" := JNum (questionId st)]> (spread question))];
             seenQuestions := {[normalizedQuestion]} ∪ seenQuestions st;
             questionId := questionId st + 1 |}.

(** Body of the outer loop: entries that are not arrays are skipped. *)
Definition mergeChunk (st : MergeState) (chunkQuiz : JSValue) : result MergeState :=
  match chunkQuiz with
  | JArr questions => foldM mergeQuestion questions st
  | _ => Ok st
  end.

Definition mergeChunkQuizzes (chunkQuizzes : list JSValue) : result (list JSValue) :=
  let* st := foldM mergeChunk chunkQuizzes mergeInit in
  Ok (allQuestions st).

Definition estimateProcessingTime (transcriptLength : Z) (useChunking : bool) : Z :=
  if transcriptLength <? 5000 then 15
  else if transcriptLength <? 20000 then (if useChunking then 30 else 60)
  else if transcriptLength <? 60000 then (if useChunking then 60 else 120)
  else (if useChunking then 90 else 180).

End TranscriptUtils.

Export TranscriptUtils.

(** ** backend/models/TranscriptCache.js *)

Module TranscriptCache.

(** A document of the [TranscriptCache] collection.  [cachedAt] and
    [lastAccessed] are dates in milliseconds since the epoch.  The
    schema declares [publishedAt] a date as well: the store casts the
    text it is given, and the field stands for the stored date, named
    by the text it was cast from; what comes back from the store is
    that date and not the text of the origin. *)
Record Doc : Type := mkDoc {
  videoId : string;
  title : string;
  description : string;
  channelTitle : string;
  duration : string;
  durationMinutes : Z;
  transcript : string;
  transcriptLength : Z;
  publishedAt : string;
  cachedAt : Z;
  lastAccessed : Z;
  accessCount : Z
}.

(** The in-memory document after the two assignments of the
    [updateAccess] method; [now] is [new Date()].  The method then
    saves the document, see [save]. *)
Definition updateAccess (now : Z) (this : Doc) : Doc :=
  {| videoId := videoId this;
     title := title this;
     description := description this;
     channelTitle := channelTitle this;
     duration := duration this;
     durationMinutes := durationMinutes this;
     transcript := transcript this;
     transcriptLength := transcriptLength this;
     publishedAt := publishedAt this;
     cachedAt := cachedAt this;
     lastAccessed := now;
     accessCount := accessCount this + 1 |}.

(** The collection, keyed by the unique index [videoId]. *)
Abbreviation Collection := (gmap string Doc).

(** [TranscriptCache.findOne({ videoId })] *)
Definition findOne (db : Collection) (key : string) : option Doc := db !! key.

(** [doc.save()] *)
Definition save (db : Collection) (doc : Doc) : Collection :=
  <[videoId doc := doc]> db.

(** [TranscriptCache.findOneAndUpdate({ videoId }, update, { upsert: true })]
    with the update document of [getVideoInfo]: every field but
    [accessCount] is set; an inserted document takes the schema default
    [accessCount = 1]. *)
Definition findOneAndUpdate (db : Collection) (key : string) (update : Doc) : Collection :=
  let count := match db !! key with
               | Some old => accessCount old
               | None => 1
               end in
  <[key := {| videoId := videoId update;
              title := title update;
              description := description update;
              channelTitle := channelTitle update;
              duration := duration update;
              durationMinutes := durationMinutes update;
              transcript := transcript update;
              transcriptLength := transcriptLength update;
              publishedAt := publishedAt update;
              cachedAt := cachedAt update;
              lastAccessed := lastAccessed update;
              accessCount := count |}]> db.

End TranscriptCache.

(** ** backend/server.js *)

Module Server.

Definition MAX_VIDEO_DURATION_MINUTES : Z := 180.
Definition MAX_TRANSCRIPT_LENGTH : Z := 100000.

(** The object returned by [getVideoInfo]. *)
Record VideoInfo : Type := mkVideoInfo {
  id : string;
  title : string;
  description : string;
  channelTitle : string;
  publishedAt : string;
  duration : string;
  durationMinutes : Z;
  transcript : string;
  fromCache : bool
}.

(** What the origin (the video API and the transcript packages) hands
    back for a video that exists: the snippet, the ISO duration with its
    hour and minute groups already read off, and the transcript text
    ([""] when both transcript sources fail). *)
Record OriginVideo : Type := mkOriginVideo {
  snippetTitle : string;
  snippetDescription : string;
  snippetChannelTitle : string;
  snippetPublishedAt : string;
  contentDuration : string;
  hours : Z;
  minutes : Z;
  transcriptText : string
}.

(** [s.substring(0, n)] *)
Fixpoint substring0 (n : nat) (s : string) : string :=
  match n, s with
  | O, _ => EmptyString
  | S _, EmptyString => EmptyString
  | S m, String c rest => String c (substring0 m rest)
  end.

Section GetVideoInfo.

(** The origin stage, from the request to the parsed duration and the
    transcript: it throws (the request fails, or the duration of the
    answer has no [PT] form and reading the match throws), finds no
    item ([None]) or returns the video.  [now] is [new Date()].  The
    calls of the store are taken to succeed. *)
Context (fetchOrigin : string -> result (option OriginVideo)) (now : Z).

(** The cache-check at the head of [getVideoInfo]: on a hit the
    document is touched and saved, and the cached fields are returned;
    on a miss nothing is returned and control falls through to the
    origin fetch. *)
Definition cacheCheck (db : TranscriptCache.Collection) (videoId : string)
  : option VideoInfo * TranscriptCache.Collection :=
  match TranscriptCache.findOne db videoId with
  | Some found =>
      let cachedVideo := TranscriptCache.updateAccess now found in
      (Some {| id := TranscriptCache.videoId cachedVideo;
               title := TranscriptCache.title cachedVideo;
               description := TranscriptCache.description cachedVideo;
               channelTitle := TranscriptCache.channelTitle cachedVideo;
               publishedAt := TranscriptCache.publishedAt cachedVideo;
               duration := TranscriptCache.duration cachedVideo;
               durationMinutes := TranscriptCache.durationMinutes cachedVideo;
               transcript := TranscriptCache.transcript cachedVideo;
               fromCache := true |},
       TranscriptCache.save db cachedVideo)
  | None => (None, db)
  end.

(** The rest of [getVideoInfo]: fetch, check the duration, cut the
    transcript, and cache it when caching is on and it is not empty. *)
Definition fetchAndCache (db : TranscriptCache.Collection) (videoId : string) (useCache : bool)
  : option VideoInfo * TranscriptCache.Collection :=
  match fetchOrigin videoId with
  | Throw _ => (None, db)
  | Ok None => (None, db)
  | Ok (Some video) =>
      let totalMinutes := hours video * 60 + minutes video in
      if MAX_VIDEO_DURATION_MINUTES <? totalMinutes then (None, db)
      else
        let text :=
          if MAX_TRANSCRIPT_LENGTH <? Z.of_nat (String.length (transcriptText video))
          then substring0 (Z.to_nat MAX_TRANSCRIPT_LENGTH) (transcriptText video)
          else transcriptText video in
        let videoInfo :=
          {| id := videoId;
             title := snippetTitle video;
             description := snippetDescription video;
             channelTitle := snippetChannelTitle video;
             publishedAt := snippetPublishedAt video;
             duration := contentDuration video;
             durationMinutes := totalMinutes;
             transcript := text;
             fromCache := false |} in
        if useCache && (0 <? Z.of_nat (String.length text))
        then (Some videoInfo,
              TranscriptCache.findOneAndUpdate db videoId
                {| TranscriptCache.videoId := videoId;
                   TranscriptCache.title := snippetTitle video;
                   TranscriptCache.description := snippetDescription video;
                   TranscriptCache.channelTitle := snippetChannelTitle video;
                   TranscriptCache.duration := contentDuration video;
                   TranscriptCache.durationMinutes := totalMinutes;
                   TranscriptCache.transcript := text;
                   TranscriptCache.transcriptLength := Z.of_nat (String.length text);
                   TranscriptCache.publishedAt := snippetPublishedAt video;
                   TranscriptCache.cachedAt := now;
                   TranscriptCache.lastAccessed := now;
                   TranscriptCache.accessCount := 1 |})
        else (Some videoInfo, db)
  end.

(** [getVideoInfo(videoId, useCache)]: the returned object ([None] is
    [null]) and the collection afterwards. *)
Definition getVideoInfo (db : TranscriptCache.Collection) (videoId : string) (useCache : bool)
  : option VideoInfo * TranscriptCache.Collection :=
  if useCache
  then match cacheCheck db videoId with
       | (Some info, db') => (Some info, db')
       | (None, db') => fetchAndCache db' videoId useCache
       end
  else fetchAndCache db videoId useCache.

End GetVideoInfo.

(** The values interpolated into the prompt of [generateQuizFromChunk];
    [promptNumQuestions] is [None] when the argument is [undefined]. *)
Record Prompt : Type := mkPrompt {
  promptTitle : string;
  promptSection : Z;
  promptChunkText : string;
  promptNumQuestions : option Z;
  promptComplexity : string;
  promptScope : string
}.

(** The [switch (difficulty)]: complexity and scope. *)
Definition difficultyParams (difficulty : string) : string * string :=
  if String.eqb difficulty "easy"
  then ("Basic concepts", "simple straightforward questions")
  else if String.eqb difficulty "hard"
  then ("Advanced topics", "challenging questions requiring full understanding")
  else ("Moderate complexity", "a mix of conceptual and application questions").

(** The regular expression [/^[A-D][\)\.:\-\s]+/i]: the letter ... *)
Definition isOptionLetter (c : ascii) : bool :=
  let n := nat_of_ascii c in
  ((65 <=? n) && (n <=? 68) || (97 <=? n) && (n <=? 100))%nat.

(** ... and the class that follows it, one or more times. *)
Definition isLabelTail (c : ascii) : bool :=
  let n := nat_of_ascii c in
  ((n =? 41) || (n =? 46) || (n =? 58) || (n =? 45))%nat || isWhitespace c.

(** [opt.replace(/^[A-D][\)\.:\-\s]+/i, '')] *)
Definition stripOptionLabel (opt : string) : string :=
  match opt with
  | String c (String d rest) =>
      if isOptionLetter c && isLabelTail d then dropWhile isLabelTail rest else opt
  | _ => opt
  end.

(** The callback of [q.options.map]. *)
Definition cleanOption (opt : JSValue) : result JSValue :=
  let* s := asString opt in
  Ok (JStr (trim (stripOptionLabel s))).

(** [text.match(/\[.*\]/s)]: from the first opening bracket to the last
    closing bracket after it. *)
Fixpoint upToLastClose (s : string) : option string :=
  match s with
  | EmptyString => None
  | String c rest =>
      match upToLastClose rest with
      | Some kept => Some (String c kept)
      | None => if (nat_of_ascii c =? 93)%nat then Some (String c EmptyString) else None
      end
  end.

Fixpoint matchBracketed (text : string) : option string :=
  match text with
  | EmptyString => None
  | String c rest =>
      if (nat_of_ascii c =? 91)%nat
      then option_map (String c) (upToLastClose rest)
      else matchBracketed rest
  end.

Section GenerateQuiz.

(** [model.generateContent(prompt)] followed by [response.text()], and
    [JSON.parse]. *)
Context (generateContent : Prompt -> result string)
        (JSON_parse : string -> result JSValue).

(** The inner [try]/[catch]: strict parse, then the bracketed block. *)
Definition parseQuizData (text : string) : result JSValue :=
  tryCatch (JSON_parse text)
    (fun _ => match matchBracketed text with
              | Some jsonMatch => JSON_parse jsonMatch
              | None => Ok (JArr [])
              end).

(** The callback of [quizData.map]. *)
Definition normalizeQuestion (idx : Z) (q : JSValue) : result JSValue :=
  let* snake := getProp q "correct_answer" in
  let* correctAnswer :=
    (if truthy snake then Ok snake else getProp q "correctAnswer") in
  let* options := getProp q "options" in
  let* optionList := asArray options in
  let* cleanOptions := mapM_from (fun _ => cleanOption) 0 optionList in
  let* question := getProp q "question" in
  let* topic := getProp q "topic" in
  Ok (JObj (<["questionId" := JNum (idx + 1)]>
           (<["question" := question]>
           (<["options" := JArr cleanOptions]>
           (<["correct_answer" := correctAnswer]>
           (<["topic" := orElse topic (JStr "General")]> ∅)))))).

Definition buildPrompt (chunkText : string) (numQuestions : option Z)
    (difficulty videoTitle : string) (chunkIndex : Z) : Prompt :=
  let '(complexity, scope) := difficultyParams difficulty in
  {| promptTitle := videoTitle;
     promptSection := chunkIndex + 1;
     promptChunkText := chunkText;
     promptNumQuestions := numQuestions;
     promptComplexity := complexity;
     promptScope := scope |}.

Definition generateQuizFromChunk (chunkText : string) (numQuestions : option Z)
    (difficulty videoTitle : string) (chunkIndex : Z) : result (list JSValue) :=
  let prompt := buildPrompt chunkText numQuestions difficulty videoTitle chunkIndex in
  tryCatch
    (let* text := generateContent prompt in
     let* quizData := parseQuizData text in
     let* items := asArray quizData in
     mapM_from normalizeQuestion 0 items)
    (fun _ => Ok []).

(** [chunks.map((chunk, index) => generateQuizFromChunk(chunk,
    questionsPerChunk[index], ...))] joined by [Promise.all], which
    throws the first rejection in chunk order. *)
Fixpoint generateChunks (chunks : list string) (questionsPerChunk : list Z)
    (difficulty videoTitle : string) (index : nat) : result (list JSValue) :=
  match chunks with
  | [] => Ok []
  | chunk :: rest =>
      let* quiz := generateQuizFromChunk chunk (questionsPerChunk !! index)
                     difficulty videoTitle (Z.of_nat index) in
      let* quizzes := generateChunks rest questionsPerChunk difficulty videoTitle (S index) in
      Ok (JArr quiz :: quizzes)
  end.

(** The tail of [generateQuiz]: merge, then trim to the target. *)
Definition mergeAndTrim (chunkQuizzes : list JSValue) (numQuestions : Z) : result (list JSValue) :=
  let* mergedQuiz := mergeChunkQuizzes chunkQuizzes in
  if numQuestions <? Z.of_nat (length mergedQuiz)
  then Ok (slice0 mergedQuiz numQuestions)
  else Ok mergedQuiz.

Definition generateQuiz (videoInfo : VideoInfo) (numQuestions : Z) (difficulty : string)
  : result (list JSValue) :=
  let transcriptLength := Z.of_nat (String.length (transcript videoInfo)) in
  let optimalChunks := calculateOptimalChunks transcriptLength in
  let useChunking := 1 <? optimalChunks in
  if negb useChunking
  then generateQuizFromChunk (transcript videoInfo) (Some numQuestions) difficulty
         (title videoInfo) 0
  else
    let chunks := splitTranscriptIntoChunks (transcript videoInfo) optimalChunks in
    let questionsPerChunk :=
      distributeQuestionsAcrossChunks numQuestions (Z.of_nat (length chunks)) in
    let* chunkQuizzes := generateChunks chunks questionsPerChunk difficulty (title videoInfo) 0 in
    mergeAndTrim chunkQuizzes numQuestions.

End GenerateQuiz.

(** [s.includes(w)] *)
Fixpoint isPrefixOf (w s : string) : bool :=
  match w, s with
  | EmptyString, _ => true
  | String _ _, EmptyString => false
  | String a w', String b s' => Ascii.eqb a b && isPrefixOf w' s'
  end.

Fixpoint includes (s w : string) : bool :=
  if isPrefixOf w s then true
  else match s with
       | EmptyString => false
       | String _ rest => includes rest w
       end.

Fixpoint takeWhile (p : ascii -> bool) (s : string) : string :=
  match s with
  | EmptyString => EmptyString
  | String c rest => if p c then String c (takeWhile p rest) else EmptyString
  end.

(** The rest of [s] after the literal [w], when [s] begins with it. *)
Fixpoint stripPrefix (w s : string) : option string :=
  match w, s with
  | EmptyString, _ => Some s
  | String _ _, EmptyString => None
  | String a w', String b s' => if Ascii.eqb a b then stripPrefix w' s' else None
  end.

(** The class [[^&\n?#]] of the video-id group. *)
Definition isIdChar (c : ascii) : bool :=
  let n := nat_of_ascii c in
  negb ((n =? 38) || (n =? 10) || (n =? 63) || (n =? 35))%nat.

(** The three alternatives of the non-capturing group, in order. *)
Definition videoUrlForms : list string :=
  ["youtube.com/watch?v="; "youtu.be/"; "youtube.com/embed/"].

(** One alternative tried at the start of [s]: the literal, then the
    group, which needs at least one code unit and takes as many as it
    can. *)
Definition matchForm (form s : string) : option string :=
  match stripPrefix form s with
  | Some rest =>
      match takeWhile isIdChar rest with
      | EmptyString => None
      | captured => Some captured
      end
  | None => None
  end.

Fixpoint matchForms (forms : list string) (s : string) : option string :=
  match forms with
  | [] => None
  | form :: others =>
      match matchForm form s with
      | Some captured => Some captured
      | None => matchForms others s
      end
  end.

(** [url.match(regex)] tries each position from the left;
    [extractVideoId] returns group 1 of the first match, or [null]. *)
Fixpoint extractVideoId (url : string) : option string :=
  match matchForms videoUrlForms url with
  | Some captured => Some captured
  | None =>
      match url with
      | EmptyString => None
      | String _ rest => extractVideoId rest
      end
  end.

Definition educationalKeywords : list string :=
  ["tutorial"; "lecture"; "course"; "lesson"; "explained"; "introduction";
   "guide"; "education"; "learn"].

Definition isEducationalContent (videoInfo : VideoInfo) : bool :=
  let titleDesc := toLowerCase (title videoInfo +:+ " " +:+ description videoInfo) in
  existsb (fun word => includes titleDesc word) educationalKeywords.

(** The path chosen for a topic by the fallback of
    [generateRecommendations]. *)
Definition fallbackW3Path (topic : string) : string :=
  let topicLower := toLowerCase topic in
  if includes topicLower "python" then "python/"
  else if includes topicLower "javascript" || includes topicLower "js" then "js/"
  else if includes topicLower "html" then "html/"
  else if includes topicLower "css" then "css/"
  else if includes topicLower "sql" then "sql/"
  else if includes topicLower "react" then "react/"
  else if includes topicLower "node" then "nodejs/"
  else if includes topicLower "php" then "php/"
  else if includes topicLower "java" then "java/"
  else if includes topicLower "c++" || includes topicLower "cpp" then "cpp/"
  else if includes topicLower "bootstrap" then "bootstrap/"
  else if includes topicLower "jquery" then "jquery/"
  else if includes topicLower "xml" then "xml/"
  else if includes topicLower "json" then "js/js_json_intro.asp"
  else "default.asp".

(** The body of [POST /generate-quiz].  A field that is absent from the
    body is [""] for the two strings and [None] for the others. *)
Record QuizRequest : Type := mkQuizRequest {
  videoUrl : string;
  providedVideoId : string;
  numQuestions : option Z;
  num_questions : option Z;
  difficulty : option string
}.

Inductive QuizResponse : Type :=
  | VideoIdRequired                 (* 400 *)
  | VideoNotFound                   (* 404 *)
  | NotEducational                  (* 400 *)
  | NoQuestions                     (* 500, "Failed to generate quiz questions" *)
  | QuizFailed (e : JsError)        (* 500, from the handler's catch *)
  | QuizReady (quizTitle quizDifficulty : string) (questions : list JSValue)
              (videoInfo : VideoInfo).   (* 200 *)

Definition statusOf (response : QuizResponse) : Z :=
  match response with
  | VideoIdRequired => 400
  | VideoNotFound => 404
  | NotEducational => 400
  | NoQuestions => 500
  | QuizFailed _ => 500
  | QuizReady _ _ _ _ => 200
  end.

(** [num_questions || numQuestions], with the default 15 of the
    destructuring. *)
Definition questionCountOf (request : QuizRequest) : Z :=
  match num_questions request with
  | Some n => if n =? 0 then default 15 (numQuestions request) else n
  | None => default 15 (numQuestions request)
  end.

Section GenerateQuizRoute.

Context (fetchOrigin : string -> result (option OriginVideo)) (now : Z)
        (generateContent : Prompt -> result string)
        (JSON_parse : string -> result JSValue).

(** The handler of [POST /generate-quiz]: the response and the
    transcript cache afterwards.  The notes that are generated beside
    the quiz go to the notes collection only; a failure there is caught
    on the spot and the response does not depend on it, so that branch
    is left out. *)
Definition generateQuizRoute (db : TranscriptCache.Collection) (request : QuizRequest)
  : QuizResponse * TranscriptCache.Collection :=
  let questionCount := questionCountOf request in
  let quizDifficulty := default "medium" (difficulty request) in
  let videoId :=
    if negb (String.eqb (videoUrl request) "")
    then extractVideoId (videoUrl request)
    else Some (providedVideoId request) in
  match videoId with
  | None => (VideoIdRequired, db)
  | Some videoId =>
      if String.eqb videoId "" then (VideoIdRequired, db)
      else
        match getVideoInfo fetchOrigin now db videoId true with
        | (None, db') => (VideoNotFound, db')
        | (Some videoInfo, db') =>
            if negb (isEducationalContent videoInfo) then (NotEducational, db')
            else
              match generateQuiz generateContent JSON_parse videoInfo
                      questionCount quizDifficulty with
              | Throw e => (QuizFailed e, db')
              | Ok [] => (NoQuestions, db')
              | Ok quiz => (QuizReady (title videoInfo) quizDifficulty quiz videoInfo, db')
              end
        end
  end.

End GenerateQuizRoute.

End Server.

(** ** backend/server.js: the login route *)

Module Auth.

(** The fields of a user document that the login route reads or writes. *)
Record User : Type := mkUser {
  _id : string;
  username : string;
  email : string;
  password : string;
  isLocked : bool;
  lockUntil : option Z;
  failedLoginAttempts : Z;
  lastLogin : option Z
}.

Definition MAX_LOGIN_ATTEMPTS : Z := 5.
Definition LOGIN_TIMEOUT : Z := 15 * 60 * 1000.

(** The process-wide [loginAttempts] map and the user collection. *)
Record State : Type := mkState {
  loginAttempts : gmap string (list Z);
  users : list User
}.

(** A field that is absent from the body is [""]. *)
Record LoginRequest : Type := mkLoginRequest {
  ip : string;
  reqUsername : string;
  reqEmail : string;
  reqPassword : string
}.

Inductive LoginResponse : Type :=
  | TooManyAttempts (retryAfter : Z)                    (* 429 *)
  | CredentialsRequired                                 (* 400 *)
  | InvalidCredentials (remainingAttempts : option Z)   (* 401 *)
  | AccountLocked                                       (* 423 *)
  | LoggedIn (token : string) (user : User).            (* 200 *)

Definition loginStatus (response : LoginResponse) : Z :=
  match response with
  | TooManyAttempts _ => 429
  | CredentialsRequired => 400
  | InvalidCredentials _ => 401
  | AccountLocked => 423
  | LoggedIn _ _ => 200
  end.

Definition setFailed (user : User) (count : Z) (locked : bool) (until : option Z) : User :=
  {| _id := _id user; username := username user; email := email user;
     password := password user; isLocked := locked; lockUntil := until;
     failedLoginAttempts := count; lastLogin := lastLogin user |}.

Definition setLastLogin (user : User) (time : Z) : User :=
  {| _id := _id user; username := username user; email := email user;
     password := password user; isLocked := isLocked user; lockUntil := lockUntil user;
     failedLoginAttempts := failedLoginAttempts user; lastLogin := Some time |}.

Section Login.

(** [bcrypt.compare(candidate, hash)] and [jwt.sign] of the user's
    identifier and e-mail. *)
Context (comparePassword : string -> string -> bool)
        (generateToken : User -> string).

(** [loginAttempts.forEach(...)]: every address keeps only the attempts
    of the last [LOGIN_TIMEOUT] milliseconds. *)
Definition cleanUp (now : Z) (attemptsByIp : gmap string (list Z)) : gmap string (list Z) :=
  (fun attempts => filter (fun time => now - time < LOGIN_TIMEOUT) attempts)
    <$> attemptsByIp.

(** [User.findOne({ $or: [{ email: id.toLowerCase() }, { username: id }] })] *)
Definition findUser (loginIdentifier : string) (us : list User) : option (nat * User) :=
  list_find (fun user => email user = toLowerCase loginIdentifier
                         \/ username user = loginIdentifier) us.

(** The handler of [POST /auth/login], run from its first line to its
    answer with no other request in between; [now] is [Date.now()] at
    the top of the handler, and the two later readings of the clock in
    the same request (the lock time and the last login) are taken to be
    the same instant. *)
Definition login (st : State) (request : LoginRequest) (now : Z) : LoginResponse * State :=
  let loginIdentifier :=
    if negb (String.eqb (reqUsername request) "") then reqUsername request
    else reqEmail request in
  let cleaned := cleanUp now (loginAttempts st) in
  let attempts := default [] (cleaned !! ip request) in
  if MAX_LOGIN_ATTEMPTS <=? Z.of_nat (length attempts)
  then (TooManyAttempts
          (TranscriptUtils.ceilDiv (default 0 (head attempts) + LOGIN_TIMEOUT - now) 1000),
        {| loginAttempts := cleaned; users := users st |})
  else if String.eqb loginIdentifier "" || String.eqb (reqPassword request) ""
  then (CredentialsRequired, {| loginAttempts := cleaned; users := users st |})
  else
    match findUser loginIdentifier (users st) with
    | None =>
        (InvalidCredentials None,
         {| loginAttempts := <[ip request := attempts ++ [now]]> cleaned;
            users := users st |})
    | Some (i, user) =>
        if isLocked user
        then (AccountLocked, {| loginAttempts := cleaned; users := users st |})
        else if negb (comparePassword (reqPassword request) (password user))
        then
          let count := failedLoginAttempts user + 1 in
          let user' :=
            if 5 <=? count
            then setFailed user count true (Some (now + 30 * 60 * 1000))
            else setFailed user count (isLocked user) (lockUntil user) in
          (InvalidCredentials (Some (5 - count)),
           {| loginAttempts := <[ip request := attempts ++ [now]]> cleaned;
              users := <[i := user']> (users st) |})
        else
          let user1 :=
            if 0 <? failedLoginAttempts user then setFailed user 0 false None else user in
          let user2 := setLastLogin user1 now in
          (LoggedIn (generateToken user1) user2,
           {| loginAttempts := cleaned; users := <[i := user2]> (users st) |})
    end.

End Login.

End Auth.

(** ** Vocabulary of the statements *)

Module Terms.

(** The questions of all chunks in chunk order and, within a chunk, in
    position order; entries that are not arrays contribute nothing. *)
Definition questionsOf (chunkQuizzes : list JSValue) : list JSValue :=
  flat_map (fun chunkQuiz => match chunkQuiz with
                             | JArr questions => questions
                             | _ => []
                             end)
           chunkQuizzes.

(** The question text of a question object, when it is a string. *)
Definition questionText (question : JSValue) : option string :=
  match question with
  | JObj o => match o !! "question" with
              | Some (JStr s) => Some s
              | _ => None
              end
  | _ => None
  end.

(** The normalized question text: lower-cased, then trimmed. *)
Definition normKey (question : JSValue) : option string :=
  (fun s => trim (toLowerCase s)) <$> questionText question.

(** The [questionId] property of an entry. *)
Definition questionIdOf (entry : JSValue) : option JSValue :=
  match entry with
  | JObj o => o !! "questionId"
  | _ => None
  end.

(** A question with its identifier replaced. *)
Definition withId (question : JSValue) (n : Z) : JSValue :=
  JObj (<["questionId" := JNum n]> (spread question)).

(** Per-chunk question lists in which every question is an object with
    a string question text. *)
Definition wellFormed (chunkQuizzes : list JSValue) : Prop :=
  Forall (fun q => is_Some (questionText q)) (questionsOf chunkQuizzes).

(** The identifiers of [out] are 1, 2, ..., [length out], in order. *)
Definition contiguousIds (out : list JSValue) : Prop :=
  map questionIdOf out =
  map (fun i => Some (JNum i)) (seqZ 1 (Z.of_nat (length out))).

(** The questions that survive deduplication, given the keys seen so far. *)
Fixpoint accepted (seen : gset string) (questions : list JSValue) : list JSValue :=
  match questions with
  | [] => []
  | q :: rest =>
      match normKey q with
      | Some k => if decide (k ∈ seen) then accepted seen rest
                  else q :: accepted ({[k]} ∪ seen) rest
      | None => accepted seen rest
      end
  end.

Fixpoint renumberFrom (n : Z) (questions : list JSValue) : list JSValue :=
  match questions with
  | [] => []
  | q :: rest => withId q n :: renumberFrom (n + 1) rest
  end.

Definition sumZ (l : list Z) : Z := foldr Z.add 0 l.

(** A raw question the normalizer accepts: an object whose [options]
    is an array of strings. *)
Definition wellShaped (q : JSValue) : Prop :=
  exists o opts, q = JObj o /\ o !! "options" = Some (JArr (map JStr opts)).

Fixpoint allChars (p : ascii -> bool) (s : string) : bool :=
  match s with
  | EmptyString => true
  | String c rest => p c && allChars p rest
  end.

Definition startsWith (p : ascii -> bool) (s : string) : bool :=
  match s with
  | EmptyString => false
  | String c _ => p c
  end.

Definition isLabelPunctuation (c : ascii) : bool :=
  let n := nat_of_ascii c in
  ((n =? 41) || (n =? 46) || (n =? 58) || (n =? 45))%nat.

(** Follows the spec's words: a label decoration is a letter A to D in
    either case followed by one of the punctuation marks [)], [.], [:]
    or [-], with white space allowed between the two (as in ["D -"]). *)
Definition beginsWithLabelDecoration (opt : string) : bool :=
  match opt with
  | String c rest =>
      Server.isOptionLetter c
      && startsWith isLabelPunctuation (dropWhile isWhitespace rest)
  | EmptyString => false
  end.

(** What the regular expression of the source matches: the letter
    followed by at least one mark or white-space code unit. *)
Definition beginsWithLabelRun (opt : string) : bool :=
  match opt with
  | String c (String d _) => Server.isOptionLetter c && Server.isLabelTail d
  | _ => false
  end.

(** Every document is filed under its own [videoId]. *)
Definition keyedById (db : TranscriptCache.Collection) : Prop :=
  map_Forall (fun key doc => TranscriptCache.videoId doc = key) db.

(** The words of a text: the pieces of [split(/\s+/)] that are not empty. *)
Definition nonEmptyWords (s : string) : list string :=
  filter (fun w => w <> EmptyString) (splitWhitespace s).

Definition spaceFree (w : string) : bool :=
  allChars (fun c => negb (isWhitespace c)) w.

(** [s] has no code unit with the given code. *)
Definition lacks (code : nat) (s : string) : bool :=
  allChars (fun c => negb (nat_of_ascii c =? code)%nat) s.

(** The property names of a normalized question. *)
Definition quizKeys : gset string :=
  {["questionId"; "question"; "options"; "correct_answer"; "topic"]}.

(** What [getVideoInfo] keeps true of the collection: a document is
    filed under its own [videoId], its transcript is neither empty nor
    longer than the limit, [transcriptLength] is its length, and it has
    been accessed at least once. *)
Definition cacheSound (db : TranscriptCache.Collection) : Prop :=
  map_Forall (fun key doc =>
                TranscriptCache.videoId doc = key /\
                0 < Z.of_nat (String.length (TranscriptCache.transcript doc))
                  <= Server.MAX_TRANSCRIPT_LENGTH /\
                TranscriptCache.transcriptLength doc =
                  Z.of_nat (String.length (TranscriptCache.transcript doc)) /\
                1 <= TranscriptCache.accessCount doc) db.

(** Cached lookups of [key] at the given times, one after the other. *)
Fixpoint lookupsAt (fetchOrigin : string -> result (option Server.OriginVideo))
    (times : list Z) (db : TranscriptCache.Collection) (key : string)
  : TranscriptCache.Collection :=
  match times with
  | [] => db
  | now :: later =>
      lookupsAt fetchOrigin later (snd (Server.getVideoInfo fetchOrigin now db key true)) key
  end.

(** The video identifier a quiz request asks for: the one in the URL
    when a URL is given, else the one in the body. *)
Definition requestedVideoId (request : Server.QuizRequest) : option string :=
  if negb (String.eqb (Server.videoUrl request) "")
  then Server.extractVideoId (Server.videoUrl request)
  else Some (Server.providedVideoId request).

(** [username || email] *)
Definition loginIdentifierOf (request : Auth.LoginRequest) : string :=
  if negb (String.eqb (Auth.reqUsername request) "") then Auth.reqUsername request
  else Auth.reqEmail request.

(** The attempts recorded for an address. *)
Definition attemptsOf (st : Auth.State) (address : string) : list Z :=
  default [] (Auth.loginAttempts st !! address).

(** The attempts of the last [LOGIN_TIMEOUT] milliseconds before [now]. *)
Definition withinWindow (now : Z) (attempts : list Z) : list Z :=
  filter (fun time => now - time < Auth.LOGIN_TIMEOUT) attempts.

(** Login requests handled one after the other, each at its own time
    and each answered before the next one is taken up: no two overlap
    at an [await] of the handler. *)
Fixpoint loginRun (comparePassword : string -> string -> bool)
    (generateToken : Auth.User -> string)
    (st : Auth.State) (steps : list (Auth.LoginRequest * Z))
  : list Auth.LoginResponse * Auth.State :=
  match steps with
  | [] => ([], st)
  | (request, now) :: later =>
      let '(response, st') := Auth.login comparePassword generateToken st request now in
      let '(responses, final) := loginRun comparePassword generateToken st' later in
      (response :: responses, final)
  end.

(** Number of 401 answers given to [address] in a run. *)
Fixpoint rejections (address : string) (steps : list (Auth.LoginRequest * Z))
    (responses : list Auth.LoginResponse) : nat :=
  match steps, responses with
  | (request, _) :: steps', response :: responses' =>
      Nat.add (if decide (Auth.ip request = address /\ Auth.loginStatus response = 401)
               then 1%nat else 0%nat)
              (rejections address steps' responses')
  | _, _ => 0%nat
  end.

End Terms.

Export Terms.

(** ** Sample data *)

Module Samples.

Import Server.

Definition dq : string := String (ascii_of_nat 34) EmptyString.
Definition quoted (s : string) : string := dq +:+ s +:+ dq.

(** The text of a model answer with two questions: the first has
    labelled options and the camel-case answer field and no topic, the
    second has plain options, the snake-case answer field and a topic. *)
Definition sampleRaw : string :=
  "[{" +:+ quoted "question" +:+ ":" +:+ quoted "What is a variable?" +:+ ","
  +:+ quoted "options" +:+ ":[" +:+ quoted "A) A name" +:+ "," +:+ quoted "B. A loop"
  +:+ "," +:+ quoted "C: A type" +:+ "," +:+ quoted "D - A file" +:+ "],"
  +:+ quoted "correctAnswer" +:+ ":" +:+ quoted "A" +:+ "},{"
  +:+ quoted "question" +:+ ":" +:+ quoted "What is a loop?" +:+ ","
  +:+ quoted "options" +:+ ":[" +:+ quoted "Repetition" +:+ "," +:+ quoted "A name"
  +:+ "," +:+ quoted "A type" +:+ "," +:+ quoted "A file" +:+ "],"
  +:+ quoted "correct_answer" +:+ ":" +:+ quoted "A" +:+ ","
  +:+ quoted "topic" +:+ ":" +:+ quoted "Control flow" +:+ "}]".

Definition sampleItems : list JSValue :=
  [JObj (<["question" := JStr "What is a variable?"]>
        (<["options" := JArr [JStr "A) A name"; JStr "B. A loop";
                              JStr "C: A type"; JStr "D - A file"]]>
        (<["correctAnswer" := JStr "A"]> ∅)));
   JObj (<["question" := JStr "What is a loop?"]>
        (<["options" := JArr [JStr "Repetition"; JStr "A name";
                              JStr "A type"; JStr "A file"]]>
        (<["correct_answer" := JStr "A"]>
        (<["topic" := JStr "Control flow"]> ∅))))].

(** [JSON.parse] on the texts of this module: [sampleRaw] parses to
    [sampleItems]; the other texts used below are not JSON. *)
Definition sampleParse (text : string) : result JSValue :=
  if String.eqb text sampleRaw then Ok (JArr sampleItems) else Throw SyntaxError.

Definition sampleModel (prompt : Prompt) : result string := Ok sampleRaw.

Definition failingModel (prompt : Prompt) : result string :=
  Throw (ExternalError "quota exceeded").

(** An answer that is neither JSON nor contains a JSON array. *)
Definition chattyModel (prompt : Prompt) : result string :=
  Ok "Sorry, [I cannot] help with that.".

(** A model whose call for the second section fails. *)
Definition flakyModel (prompt : Prompt) : result string :=
  if promptSection prompt =? 2 then Throw (ExternalError "timeout") else Ok sampleRaw.

Fixpoint repeatString (n : nat) (s : string) : string :=
  match n with
  | O => EmptyString
  | S m => s +:+ repeatString m s
  end.

Definition shortVideo : VideoInfo :=
  {| id := "abc123"; title := "Intro to programming"; description := "";
     channelTitle := ""; publishedAt := ""; duration := "PT3M"; durationMinutes := 3;
     transcript := "Variables name values. Loops repeat work."; fromCache := false |}.

(** 5,800 characters: two chunks. *)
Definition longVideo : VideoInfo :=
  {| id := "xyz789"; title := "Intro to programming"; description := "";
     channelTitle := ""; publishedAt := ""; duration := "PT40M"; durationMinutes := 40;
     transcript := repeatString 200 "This is a sample transcript. "; fromCache := false |}.

Definition testQuestion (text answer topic : string) : JSValue :=
  JObj (<["question" := JStr text]>
       (<["options" := JArr [JStr "A"; JStr "B"; JStr "C"; JStr "D"]]>
       (<["correct_answer" := JStr answer]>
       (<["topic" := JStr topic]> ∅)))).

(** The chunk quizzes of [backend/test-optimizations.js], Test 4. *)
Definition testChunkQuizzes : list JSValue :=
  [JArr [testQuestion "Q1 from chunk 1" "A" "Topic1";
         testQuestion "Q2 from chunk 1" "B" "Topic1"];
   JArr [testQuestion "Q1 from chunk 2" "C" "Topic2";
         testQuestion "Q1 from chunk 1" "A" "Topic1"];
   JArr [testQuestion "Q1 from chunk 3" "D" "Topic3"]].

(** Two chunks that ask the same question in different case and spacing. *)
Definition variantChunkQuizzes : list JSValue :=
  [JArr [testQuestion "What is a variable?" "A" "Basics"];
   JArr [testQuestion "  what is a VARIABLE?  " "B" "Syntax";
         testQuestion "What is a loop?" "C" "Control flow"]].

Definition testMerged : list JSValue :=
  match mergeChunkQuizzes testChunkQuizzes with
  | Ok merged => merged
  | Throw _ => []
  end.

Definition cachedDoc : TranscriptCache.Doc :=
  {| TranscriptCache.videoId := "abc123";
     TranscriptCache.title := "Intro to programming";
     TranscriptCache.description := "A lecture";
     TranscriptCache.channelTitle := "CS channel";
     TranscriptCache.duration := "PT3M";
     TranscriptCache.durationMinutes := 3;
     TranscriptCache.transcript := "Variables name values. Loops repeat work.";
     TranscriptCache.transcriptLength := 41;
     TranscriptCache.publishedAt := "2024-01-01T00:00:00Z";
     TranscriptCache.cachedAt := 1000;
     TranscriptCache.lastAccessed := 1000;
     TranscriptCache.accessCount := 1 |}.

Definition sampleDb : TranscriptCache.Collection := {["abc123" := cachedDoc]}.

Definition noOrigin (videoId : string) : result (option OriginVideo) := Ok None.

(** An origin that knows one three-minute video. *)
Definition sampleOrigin (videoId : string) : result (option OriginVideo) :=
  if String.eqb videoId "abc123"
  then Ok (Some {| snippetTitle := "Intro to programming";
                   snippetDescription := "A lecture";
                   snippetChannelTitle := "CS channel";
                   snippetPublishedAt := "2024-01-01T00:00:00Z";
                   contentDuration := "PT3M";
                   hours := 0;
                   minutes := 3;
                   transcriptText := "Variables name values. Loops repeat work." |})
  else Ok None.

(** A model answer whose second item has no options:
    [[{"question":"What is a loop?","options":["a","b","c","d"],"correct_answer":"A"},{"question":"Broken"}]] *)
Definition mixedRaw : string :=
  "[{" +:+ quoted "question" +:+ ":" +:+ quoted "What is a loop?" +:+ ","
  +:+ quoted "options" +:+ ":[" +:+ quoted "a" +:+ "," +:+ quoted "b" +:+ ","
  +:+ quoted "c" +:+ "," +:+ quoted "d" +:+ "],"
  +:+ quoted "correct_answer" +:+ ":" +:+ quoted "A" +:+ "},{"
  +:+ quoted "question" +:+ ":" +:+ quoted "Broken" +:+ "}]".

Definition mixedItems : list JSValue :=
  [JObj (<["question" := JStr "What is a loop?"]>
        (<["options" := JArr [JStr "a"; JStr "b"; JStr "c"; JStr "d"]]>
        (<["correct_answer" := JStr "A"]> ∅)));
   JObj (<["question" := JStr "Broken"]> ∅)].

Definition mixedParse (text : string) : result JSValue :=
  if String.eqb text mixedRaw then Ok (JArr mixedItems) else Throw SyntaxError.

Definition mixedModel (prompt : Prompt) : result string := Ok mixedRaw.

Definition sampleQuiz : list JSValue :=
  match generateQuizFromChunk sampleModel sampleParse "Variables name values." (Some 2)
          "easy" "Intro to programming" 0 with
  | Ok quiz => quiz
  | Throw _ => []
  end.

(** An origin whose one video is not educational by its title and
    description. *)
Definition musicVideo : OriginVideo :=
  {| snippetTitle := "Top hits";
     snippetDescription := "Official music video";
     snippetChannelTitle := "Records";
     snippetPublishedAt := "2023-05-05T00:00:00Z";
     contentDuration := "PT4M";
     hours := 0;
     minutes := 4;
     transcriptText := "la la la" |}.

Definition musicOrigin (videoId : string) : result (option OriginVideo) :=
  if String.eqb videoId "mus1c" then Ok (Some musicVideo) else Ok None.

Definition quizRequest : QuizRequest :=
  {| videoUrl := ""; providedVideoId := "abc123"; numQuestions := Some 5;
     num_questions := None; difficulty := Some "easy" |}.

Definition urlRequest : QuizRequest :=
  {| videoUrl := "https://vimeo.com/12345"; providedVideoId := "abc123";
     numQuestions := None; num_questions := None; difficulty := None |}.

Definition musicRequest : QuizRequest :=
  {| videoUrl := "https://youtu.be/mus1c?t=3"; providedVideoId := "";
     numQuestions := None; num_questions := Some 10; difficulty := None |}.

(** Password comparison and token of the login examples. *)
Definition plainCompare (candidate stored : string) : bool := String.eqb candidate stored.
Definition plainToken (user : Auth.User) : string := "token-" +:+ Auth._id user.

Definition alice : Auth.User :=
  {| Auth._id := "u1"; Auth.username := "alice"; Auth.email := "alice@example.com";
     Auth.password := "correct horse"; Auth.isLocked := false; Auth.lockUntil := None;
     Auth.failedLoginAttempts := 4; Auth.lastLogin := None |}.

Definition bob : Auth.User :=
  {| Auth._id := "u2"; Auth.username := "bob"; Auth.email := "bob@example.com";
     Auth.password := "battery staple"; Auth.isLocked := true;
     Auth.lockUntil := Some 5000; Auth.failedLoginAttempts := 5;
     Auth.lastLogin := None |}.

Definition freshState : Auth.State :=
  {| Auth.loginAttempts := ∅; Auth.users := [alice; bob] |}.

Definition loginOf (address name pass : string) : Auth.LoginRequest :=
  {| Auth.ip := address; Auth.reqUsername := name; Auth.reqEmail := "";
     Auth.reqPassword := pass |}.

(** Five tries with an unknown user name from one address, a minute apart. *)
Definition guessing : list (Auth.LoginRequest * Z) :=
  [(loginOf "10.0.0.7" "mallory" "a", 1000);
   (loginOf "10.0.0.7" "mallory" "b", 61000);
   (loginOf "10.0.0.7" "mallory" "c", 121000);
   (loginOf "10.0.0.7" "mallory" "d", 181000);
   (loginOf "10.0.0.7" "mallory" "e", 241000)].

End Samples.

(** * Properties *)

#[local] Set Warnings "-clear-no-such-hyp".

(** Case analysis on every integer comparison of the goal. *)
Ltac case_ltb :=
  repeat match goal with
         | |- context [?a <? ?b] => destruct (Z.ltb_spec a b)
         | |- context [?a =? ?b] => destruct (Z.eqb_spec a b)
         end.

(** ** Chunk planner *)

Module PlannerProps.

Example optimal_chunks_thresholds :
  map calculateOptimalChunks [4999; 5000; 20000; 60000; 90000] = [1; 2; 3; 5; 6].
Proof. reflexivity. Qed.

Example distribute_15_over_4 : distributeQuestionsAcrossChunks 15 4 = [4; 4; 4; 3].
Proof. reflexivity. Qed.

Example distribute_25_over_6 : distributeQuestionsAcrossChunks 25 6 = [5; 4; 4; 4; 4; 4].
Proof. reflexivity. Qed.

Example distribute_over_no_chunk : distributeQuestionsAcrossChunks 10 0 = [].
Proof. reflexivity. Qed.

Lemma calculateOptimalChunks_short len :
  len < 5000 -> calculateOptimalChunks len = 1.
Proof. intros H. unfold calculateOptimalChunks. case_ltb; lia. Qed.

Lemma calculateOptimalChunks_long len :
  5000 <= len -> 1 < calculateOptimalChunks len.
Proof. intros H. unfold calculateOptimalChunks. case_ltb; lia. Qed.

(** The sum of the quotas of [len] consecutive chunks starting at chunk
    [m]: [len] times the base plus the number of those chunks that lie
    below the remainder [r]. *)
Lemma sumZ_quota_from (base r : Z) (len : nat) (m : Z) :
  sumZ (map (fun i => base + (if i <? r then 1 else 0)) (seqZ m (Z.of_nat len))) =
  Z.of_nat len * base + Z.max 0 (Z.min (m + Z.of_nat len) r - m).
Proof.
  revert m. induction len as [|len IH]; intros m.
  - simpl. lia.
  - rewrite seqZ_cons by lia.
    replace (Z.pred (Z.of_nat (S len))) with (Z.of_nat len) by lia.
    cbn [map sumZ foldr].
    fold (sumZ (map (fun i => base + (if i <? r then 1 else 0))
                    (seqZ (Z.succ m) (Z.of_nat len)))).
    rewrite IH. case_ltb; lia.
Qed.

(** C3.  For a requested total of at least 0 and at least one chunk,
    [distributeQuestionsAcrossChunks] returns exactly [numChunks]
    quotas, none negative, that sum to the total; any two differ by at
    most 1; chunk [i] gets the floor quotient plus one extra question
    exactly when [i] is below the remainder [totalQuestions mod
    numChunks]; and a total of zero gives all-zero quotas.  The counts
    are integers that the source holds as doubles: the total is at most
    [MAX_SAFE_INTEGER] (beyond, the quotient of doubles is rounded
    before [Math.floor]) and the chunk count at most
    [MAX_ARRAY_LENGTH]. *)
Theorem distributeQuestionsAcrossChunks_quotas (totalQuestions numChunks : Z) :
  0 <= totalQuestions <= MAX_SAFE_INTEGER ->
  1 <= numChunks <= MAX_ARRAY_LENGTH ->
  let quotas := distributeQuestionsAcrossChunks totalQuestions numChunks in
  Z.of_nat (length quotas) = numChunks /\
  Forall (fun x => 0 <= x) quotas /\
  sumZ quotas = totalQuestions /\
  (forall x y, x ∈ quotas -> y ∈ quotas -> Z.abs (x - y) <= 1) /\
  (forall i : nat,
      Z.of_nat i < numChunks ->
      quotas !! i =
        Some (totalQuestions / numChunks +
              (if Z.of_nat i <? totalQuestions mod numChunks then 1 else 0))) /\
  (totalQuestions = 0 -> quotas = replicate (Z.to_nat numChunks) 0).
Proof.
  intros [Ht _] [Hn _] quotas. subst quotas. unfold distributeQuestionsAcrossChunks.
  rewrite Z.rem_mod_nonneg by lia.
  pose proof (Z.mod_pos_bound totalQuestions numChunks ltac:(lia)) as Hr.
  pose proof (Z.div_pos totalQuestions numChunks ltac:(lia) ltac:(lia)) as Hb.
  pose proof (Z.div_mod totalQuestions numChunks ltac:(lia)) as Hdm.
  set (base := totalQuestions / numChunks) in *.
  set (r := totalQuestions mod numChunks) in *.
  assert (Hmem : forall x,
             x ∈ map (fun i => base + (if i <? r then 1 else 0)) (seqZ 0 numChunks) ->
             base <= x <= base + 1).
  { intros x (i & -> & _)%list_elem_of_fmap. destruct (i <? r); lia. }
  repeat split.
  - rewrite length_map, length_seqZ. lia.
  - apply Forall_forall. intros x Hx%Hmem. lia.
  - replace numChunks with (Z.of_nat (Z.to_nat numChunks)) at 1 by lia.
    rewrite sumZ_quota_from. lia.
  - intros x y Hx%Hmem Hy%Hmem. lia.
  - intros i Hi. rewrite list_lookup_fmap, lookup_seqZ_lt by lia. done.
  - intros ->. subst base r. rewrite Z.div_0_l, Z.mod_0_l by lia.
    apply list_eq. intros i.
    destruct (decide (Z.of_nat i < numChunks)) as [Hi|Hi].
    + rewrite list_lookup_fmap, lookup_seqZ_lt by lia.
      rewrite lookup_replicate_2 by lia. simpl.
      destruct (Z.ltb_spec (0 + Z.of_nat i) 0); [lia|done].
    + rewrite list_lookup_fmap, lookup_seqZ_ge by lia.
      symmetry. apply lookup_replicate_None. lia.
Qed.

Lemma distributeQuestionsAcrossChunks_quotas_witness :
  0 <= 25 <= MAX_SAFE_INTEGER /\ 1 <= 6 <= MAX_ARRAY_LENGTH /\
  let quotas := distributeQuestionsAcrossChunks 25 6 in
  Z.of_nat (length quotas) = 6 /\
  Forall (fun x => 0 <= x) quotas /\
  sumZ quotas = 25 /\
  (forall x y, x ∈ quotas -> y ∈ quotas -> Z.abs (x - y) <= 1) /\
  (forall i : nat,
      Z.of_nat i < 6 ->
      quotas !! i = Some (25 / 6 + (if Z.of_nat i <? 25 mod 6 then 1 else 0))) /\
  (25 = 0 -> quotas = replicate (Z.to_nat 6) 0).
Proof.
  assert (Htotal : 0 <= 25 <= MAX_SAFE_INTEGER) by (vm_compute; split; discriminate).
  assert (Hchunks : 1 <= 6 <= MAX_ARRAY_LENGTH) by (vm_compute; split; discriminate).
  split; [exact Htotal|]. split; [exact Hchunks|].
  apply (distributeQuestionsAcrossChunks_quotas 25 6 Htotal Hchunks).
Defined.

End PlannerProps.

(** ** Transcript splitter *)

Module SplitterProps.

Example split_words_with_edges : splitWhitespace " a  b " = [""; "a"; "b"; ""].
Proof. reflexivity. Qed.

Example split_long_transcript :
  map String.length
      (splitTranscriptIntoChunks (Server.transcript Samples.longVideo) 3)
  = [1930; 1935; 1933]%nat.
Proof. vm_compute. reflexivity. Qed.

(** C7, as stated, fails at the empty transcript: it is shorter than
    the threshold, and the result is the empty list, not a list holding
    the empty text. *)
Lemma empty_transcript_counterexample :
  ~ (forall (transcript : string) (numChunks : Z),
        Z.of_nat (String.length transcript) < 5000 ->
        splitTranscriptIntoChunks transcript numChunks = [transcript]).
Proof.
  intros H. specialize (H "" 4 ltac:(simpl; lia)). discriminate H.
Qed.

(** C7, amended.  Every transcript that is not empty and shorter than
    5,000 characters is returned as the single chunk, unmodified,
    whatever the requested chunk count; the empty transcript gives no
    chunk. *)
Theorem splitTranscriptIntoChunks_short (transcript : string) (numChunks : Z) :
  (0 < Z.of_nat (String.length transcript) < 5000 ->
     splitTranscriptIntoChunks transcript numChunks = [transcript]) /\
  splitTranscriptIntoChunks "" numChunks = [].
Proof.
  split; [|reflexivity].
  intros [Hpos Hlt]. unfold splitTranscriptIntoChunks. case_ltb; try lia. done.
Qed.

Lemma splitTranscriptIntoChunks_short_witness :
  splitTranscriptIntoChunks "Functions map inputs to outputs." 6 =
    ["Functions map inputs to outputs."].
Proof.
  apply (proj1 (splitTranscriptIntoChunks_short "Functions map inputs to outputs." 6)).
  simpl. lia.
Defined.

End SplitterProps.

(** ** Merger and deduplicator *)

Module MergerProps.

Import Server.

Lemma foldM_app {A S} (f : S -> A -> result S) l1 l2 s :
  foldM f (l1 ++ l2) s = bind (foldM f l1 s) (foldM f l2).
Proof.
  revert s. induction l1 as [|x l1 IH]; intros s; simpl; [done|].
  destruct (f s x); simpl; auto.
Qed.

(** The two nested loops visit the questions in the order of
    [questionsOf]. *)
Lemma merge_flat chunkQuizzes st :
  foldM mergeChunk chunkQuizzes st = foldM mergeQuestion (questionsOf chunkQuizzes) st.
Proof.
  revert st. induction chunkQuizzes as [|c cs IH]; intros st; simpl; [done|].
  rewrite foldM_app.
  destruct c; simpl; try apply IH.
  destruct (foldM mergeQuestion l st); simpl; auto.
Qed.

Lemma normalizedQuestionOf_key q :
  normalizedQuestionOf q =
    match normKey q with
    | Some k => Ok k
    | None => Throw TypeError
    end.
Proof.
  unfold normalizedQuestionOf, normKey, questionText.
  destruct q as [| | | | |l|o]; simpl; try done.
  destruct (o !! "question") as [[]|]; simpl; done.
Qed.

Lemma normKey_withId q n : is_Some (normKey q) -> normKey (withId q n) = normKey q.
Proof.
  unfold normKey, questionText. destruct q; simpl; try by intros [? [=]].
  intros _. rewrite lookup_insert_ne; done.
Qed.

(** The loop on well-formed questions, in closed form. *)
Lemma foldM_mergeQuestion_wf qs st :
  Forall (fun q => is_Some (normKey q)) qs ->
  foldM mergeQuestion qs st =
    Ok {| allQuestions :=
            allQuestions st ++
              renumberFrom (questionId st) (accepted (seenQuestions st) qs);
          seenQuestions := list_to_set (omap normKey qs) ∪ seenQuestions st;
          questionId :=
            questionId st + Z.of_nat (length (accepted (seenQuestions st) qs)) |}.
Proof.
  intros Hwf. revert st.
  induction Hwf as [|q qs [k Hk] _ IH]; intros [al seen n]; simpl.
  - f_equal. f_equal; [by rewrite app_nil_r | set_solver | lia].
  - unfold mergeQuestion at 1. rewrite normalizedQuestionOf_key, Hk. simpl.
    destruct (decide (k ∈ seen)) as [Hin|Hnin]; simpl.
    + rewrite IH. simpl. f_equal. f_equal. set_solver.
    + rewrite IH. simpl. rewrite <- app_assoc. simpl.
      f_equal. f_equal; [set_solver | lia].
Qed.

(** The loop returns only when every question it meets has a string text. *)
Lemma foldM_mergeQuestion_Ok qs st st' :
  foldM mergeQuestion qs st = Ok st' -> Forall (fun q => is_Some (normKey q)) qs.
Proof.
  revert st. induction qs as [|q qs IH]; intros st; simpl; [by constructor|].
  unfold mergeQuestion at 1. rewrite normalizedQuestionOf_key.
  destruct (normKey q) as [k|] eqn:Hk; simpl; [|done].
  destruct (decide _); simpl; intros H; constructor; eauto.
Qed.

Lemma renumberFrom_length n l : length (renumberFrom n l) = length l.
Proof. revert n. induction l; intros; simpl; auto. Qed.

Lemma renumberFrom_lookup n l (k : nat) :
  renumberFrom n l !! k = (fun q => withId q (n + Z.of_nat k)) <$> l !! k.
Proof.
  revert n k. induction l as [|q l IH]; intros n [|k]; simpl; try done.
  - by rewrite Z.add_0_r.
  - rewrite IH. destruct (l !! k); simpl; [|done]. do 2 f_equal. lia.
Qed.

Lemma renumberFrom_ids n l :
  map questionIdOf (renumberFrom n l) =
  map (fun i => Some (JNum i)) (seqZ n (Z.of_nat (length l))).
Proof.
  revert n. induction l as [|q l IH]; intros n; [done|].
  cbn [length renumberFrom map]. rewrite seqZ_cons by lia. cbn [map].
  f_equal.
  - simpl. by rewrite lookup_insert_eq.
  - rewrite IH. do 2 f_equal; lia.
Qed.

Lemma renumberFrom_keys n l :
  Forall (fun q => is_Some (normKey q)) l ->
  map normKey (renumberFrom n l) = map normKey l.
Proof.
  intros H. revert n. induction H as [|q l Hq _ IH]; intros n; simpl; [done|].
  by rewrite IH, normKey_withId.
Qed.

Lemma renumberFrom_take n l m :
  take m (renumberFrom n l) = renumberFrom n (take m l).
Proof.
  revert n m. induction l as [|q l IH]; intros n [|m]; simpl; try done.
  by rewrite IH.
Qed.

Lemma accepted_sublist seen qs : sublist (accepted seen qs) qs.
Proof.
  revert seen. induction qs as [|q qs IH]; intros seen; simpl; [constructor|].
  destruct (normKey q) as [k|]; [destruct (decide _)|]; try (by constructor).
Qed.

Lemma accepted_wf seen qs :
  Forall (fun q => is_Some (normKey q)) qs ->
  Forall (fun q => is_Some (normKey q)) (accepted seen qs).
Proof.
  rewrite !Forall_forall. intros H q Hq. apply H.
  eapply elem_of_sublist; [done|apply accepted_sublist].
Qed.

Lemma accepted_keys_fresh seen qs q :
  q ∈ accepted seen qs -> exists t, normKey q = Some t /\ t ∉ seen.
Proof.
  revert seen. induction qs as [|q0 qs IH]; intros seen; simpl;
    [by intros ?%elem_of_nil|].
  destruct (normKey q0) as [k0|] eqn:Hk0; [destruct (decide (k0 ∈ seen))|]; auto.
  rewrite elem_of_cons. intros [->|Hin]; [eauto|].
  destruct (IH _ Hin) as (t & Ht & Hnin). exists t. split; [done|set_solver].
Qed.

Lemma accepted_keys_NoDup seen qs : NoDup (map normKey (accepted seen qs)).
Proof.
  revert seen. induction qs as [|q0 qs IH]; intros seen; simpl; [constructor|].
  destruct (normKey q0) as [k0|] eqn:Hk0; [destruct (decide (k0 ∈ seen))|]; auto.
  simpl. constructor; [|apply IH].
  rewrite Hk0. intros (q & Hq & Hin)%list_elem_of_fmap.
  destruct (accepted_keys_fresh _ _ _ Hin) as (t & Ht & Hnin).
  rewrite Ht in Hq. set_solver.
Qed.

(** The first question with a key that was not seen before is accepted. *)
Lemma accepted_first seen qs t i q :
  list_find (fun q' => normKey q' = Some t) qs = Some (i, q) ->
  t ∉ seen ->
  exists k, accepted seen qs !! k = Some q.
Proof.
  revert seen i. induction qs as [|q0 qs IH]; intros seen i; [done|].
  cbn [list_find accepted]. destruct (decide (normKey q0 = Some t)) as [Heq|Hne].
  - intros [= <- <-] Hnin. rewrite Heq. rewrite decide_False by done. by exists 0%nat.
  - destruct (list_find _ qs) as [[i' q']|] eqn:Hfind; [|done].
    intros [= <- <-] Hnin.
    destruct (normKey q0) as [k0|] eqn:Hk0; [destruct (decide (k0 ∈ seen))|].
    + eapply IH; eauto.
    + destruct (IH ({[k0]} ∪ seen) i' eq_refl) as [k Hk]; [set_solver|].
      by exists (S k).
    + eapply IH; eauto.
Qed.

(** Every accepted question is the first one with its key. *)
Lemma accepted_lookup seen qs k q :
  accepted seen qs !! k = Some q ->
  exists i t, list_find (fun q' => normKey q' = Some t) qs = Some (i, q) /\ t ∉ seen.
Proof.
  revert seen k. induction qs as [|q0 qs IH]; intros seen k; [done|].
  cbn [accepted].
  destruct (normKey q0) as [k0|] eqn:Hk0;
    [destruct (decide (k0 ∈ seen)) as [Hin|Hnin]|].
  - intros (i & t & Hf & Ht)%IH. exists (S i), t. split; [|done].
    cbn [list_find]. rewrite decide_False by (rewrite Hk0; set_solver).
    by rewrite Hf.
  - destruct k as [|k].
    + intros [= <-]. exists 0%nat, k0. split; [|done].
      cbn [list_find]. by rewrite decide_True.
    + cbn. intros (i & t & Hf & Ht)%IH. exists (S i), t. split; [|set_solver].
      cbn [list_find]. rewrite decide_False by (rewrite Hk0; set_solver).
      by rewrite Hf.
  - intros (i & t & Hf & Ht)%IH. exists (S i), t. split; [|done].
    cbn [list_find]. rewrite decide_False by (by rewrite Hk0).
    by rewrite Hf.
Qed.

Lemma wellFormed_keys cq :
  wellFormed cq <-> Forall (fun q => is_Some (normKey q)) (questionsOf cq).
Proof.
  unfold wellFormed, normKey. apply Forall_iff. intros q.
  by rewrite fmap_is_Some.
Qed.

(** On well-formed input the merge returns the accepted questions,
    numbered from 1. *)
Lemma mergeChunkQuizzes_wf cq :
  wellFormed cq ->
  mergeChunkQuizzes cq = Ok (renumberFrom 1 (accepted ∅ (questionsOf cq))).
Proof.
  intros H%wellFormed_keys. unfold mergeChunkQuizzes.
  rewrite merge_flat, foldM_mergeQuestion_wf by done. done.
Qed.

Lemma mergeChunkQuizzes_Ok cq out :
  mergeChunkQuizzes cq = Ok out -> wellFormed cq.
Proof.
  unfold mergeChunkQuizzes. rewrite merge_flat.
  destruct (foldM mergeQuestion _ _) eqn:H; [|done].
  intros _. apply wellFormed_keys. eapply foldM_mergeQuestion_Ok; eauto.
Qed.

Lemma slice0_nonneg {A} (l : list A) n : 0 <= n -> slice0 l n = take (Z.to_nat n) l.
Proof. intros H. unfold slice0. case_ltb; [lia|done]. Qed.

Lemma mergeAndTrim_bounded chunkQuizzes numQuestions :
  wellFormed chunkQuizzes ->
  0 <= numQuestions ->
  exists out,
    mergeAndTrim chunkQuizzes numQuestions = Ok out /\
    Z.of_nat (length out) <= numQuestions /\
    contiguousIds out.
Proof.
  intros Hwf Hn. unfold mergeAndTrim, contiguousIds.
  rewrite mergeChunkQuizzes_wf by done. cbn [bind].
  set (acc := accepted ∅ (questionsOf chunkQuizzes)).
  rewrite renumberFrom_length.
  destruct (Z.ltb_spec numQuestions (Z.of_nat (length acc))) as [Hlt|Hge].
  - eexists. split; [done|].
    rewrite slice0_nonneg, renumberFrom_take by done.
    rewrite renumberFrom_ids, renumberFrom_length, length_take.
    split; [lia|done].
  - eexists. split; [done|].
    rewrite renumberFrom_ids, renumberFrom_length. split; [lia|done].
Qed.

Lemma mergeAndTrim_Ok chunkQuizzes numQuestions out :
  mergeAndTrim chunkQuizzes numQuestions = Ok out -> wellFormed chunkQuizzes.
Proof.
  unfold mergeAndTrim.
  destruct (mergeChunkQuizzes chunkQuizzes) as [merged|e] eqn:Hmerge; [|done].
  intros _. by eapply mergeChunkQuizzes_Ok.
Qed.

Example merge_test_ids :
  map questionIdOf Samples.testMerged = [Some (JNum 1); Some (JNum 2); Some (JNum 3); Some (JNum 4)].
Proof. vm_compute. reflexivity. Qed.

Example merge_test_texts :
  map questionText Samples.testMerged =
    [Some "Q1 from chunk 1"; Some "Q2 from chunk 1"; Some "Q1 from chunk 2";
     Some "Q1 from chunk 3"].
Proof. vm_compute. reflexivity. Qed.

Example merge_variants :
  (fun r => match r with
            | Ok out => map (fun e => (questionText e, questionIdOf e)) out
            | Throw _ => []
            end) (mergeChunkQuizzes Samples.variantChunkQuizzes)
  = [(Some "What is a variable?", Some (JNum 1)); (Some "What is a loop?", Some (JNum 2))].
Proof. vm_compute. reflexivity. Qed.

(** A question without a string text makes the merge throw. *)
Example merge_throws_on_missing_text :
  mergeChunkQuizzes [JArr [JObj (<["topic" := JStr "General"]> ∅)]] = Throw TypeError.
Proof. vm_compute. reflexivity. Qed.

(** C1.  For a requested count of at least 0, merging and trimming any
    per-chunk question lists returns at most that many questions, and
    their identifiers are 1, 2, ..., k in list order, k being the
    number returned; the same holds for what [generateQuiz] returns on
    its multi-chunk path. *)
Theorem generateQuiz_merged_bounded_numbered (numQuestions : Z) :
  0 <= numQuestions ->
  (forall chunkQuizzes,
      wellFormed chunkQuizzes ->
      exists out,
        mergeAndTrim chunkQuizzes numQuestions = Ok out /\
        Z.of_nat (length out) <= numQuestions /\
        contiguousIds out) /\
  (forall generateContent JSON_parse videoInfo difficulty out,
      5000 <= Z.of_nat (String.length (transcript videoInfo)) ->
      generateQuiz generateContent JSON_parse videoInfo numQuestions difficulty = Ok out ->
      Z.of_nat (length out) <= numQuestions /\ contiguousIds out).
Proof.
  intros Hn. split.
  - intros chunkQuizzes Hwf. by apply mergeAndTrim_bounded.
  - intros generateContent JSON_parse videoInfo difficulty out Hlong.
    unfold generateQuiz.
    pose proof (PlannerProps.calculateOptimalChunks_long _ Hlong) as Hopt.
    destruct (Z.ltb_spec 1 (calculateOptimalChunks
                              (Z.of_nat (String.length (transcript videoInfo)))));
      [|lia].
    cbn [negb].
    destruct (generateChunks _ _ _ _ _ _ _) as [chunkQuizzes|e]; [|done].
    cbn [bind]. intros Hout.
    destruct (mergeAndTrim_bounded chunkQuizzes numQuestions) as (out' & Hout' & Hlen & Hids);
      [by eapply mergeAndTrim_Ok|done|].
    rewrite Hout in Hout'. by injection Hout' as <-.
Qed.

Lemma generateQuiz_merged_bounded_numbered_witness :
  exists out,
    mergeAndTrim Samples.testChunkQuizzes 3 = Ok out /\
    Z.of_nat (length out) <= 3 /\
    contiguousIds out.
Proof.
  apply (proj1 (generateQuiz_merged_bounded_numbered 3 ltac:(lia))).
  unfold wellFormed. apply (bool_decide_unpack _). vm_compute. exact I.
Defined.

(** C2.  In the output of [mergeChunkQuizzes] no two entries have the
    same normalized question text; for each normalized text [t] that
    occurs in the input, the first question with that text, in chunk
    order and then position order, is in the output (under its new
    identifier) and is the only entry with text [t]; and every entry
    of the output is such a first occurrence. *)
Theorem mergeChunkQuizzes_keeps_first_occurrence (chunkQuizzes : list JSValue) :
  wellFormed chunkQuizzes ->
  exists out,
    mergeChunkQuizzes chunkQuizzes = Ok out /\
    NoDup (map normKey out) /\
    (forall t i q,
        list_find (fun q' => normKey q' = Some t) (questionsOf chunkQuizzes) = Some (i, q) ->
        exists k : nat,
          out !! k = Some (withId q (Z.of_nat k + 1)) /\
          forall (k' : nat) e, out !! k' = Some e -> normKey e = Some t -> k' = k) /\
    (forall (k : nat) e,
        out !! k = Some e ->
        exists t i q,
          list_find (fun q' => normKey q' = Some t) (questionsOf chunkQuizzes) = Some (i, q) /\
          e = withId q (Z.of_nat k + 1)).
Proof.
  intros Hwf. eexists. split; [by apply mergeChunkQuizzes_wf|].
  set (flat := questionsOf chunkQuizzes).
  assert (Hacc : Forall (fun q => is_Some (normKey q)) (accepted ∅ flat)).
  { apply accepted_wf. by apply wellFormed_keys. }
  assert (Hnd : NoDup (map normKey (renumberFrom 1 (accepted ∅ flat)))).
  { rewrite renumberFrom_keys by done. apply accepted_keys_NoDup. }
  split; [done|]. split.
  - intros t i q Hfind.
    destruct (accepted_first ∅ flat t i q Hfind) as [k Hk]; [set_solver|].
    assert (Hout : renumberFrom 1 (accepted ∅ flat) !! k
                   = Some (withId q (Z.of_nat k + 1))).
    { rewrite renumberFrom_lookup, Hk. simpl. do 2 f_equal. lia. }
    exists k. split; [exact Hout|].
    intros k' e Hk' He.
    apply list_find_Some in Hfind as (_ & Hq & _).
    eapply NoDup_lookup; [exact Hnd| |].
    + rewrite list_lookup_fmap, Hk'. simpl. by rewrite He.
    + rewrite list_lookup_fmap, Hout. simpl.
      rewrite normKey_withId by (by rewrite Hq). by rewrite Hq.
  - intros k e. rewrite renumberFrom_lookup.
    destruct (accepted ∅ flat !! k) as [q|] eqn:Hk; [|done].
    simpl. intros [= <-].
    destruct (accepted_lookup _ _ _ _ Hk) as (i & t & Hf & _).
    exists t, i, q. split; [done|]. f_equal. lia.
Qed.

Lemma mergeChunkQuizzes_keeps_first_occurrence_witness :
  exists out,
    mergeChunkQuizzes Samples.variantChunkQuizzes = Ok out /\
    NoDup (map normKey out) /\
    (forall t i q,
        list_find (fun q' => normKey q' = Some t)
                  (questionsOf Samples.variantChunkQuizzes) = Some (i, q) ->
        exists k : nat,
          out !! k = Some (withId q (Z.of_nat k + 1)) /\
          forall (k' : nat) e, out !! k' = Some e -> normKey e = Some t -> k' = k) /\
    (forall (k : nat) e,
        out !! k = Some e ->
        exists t i q,
          list_find (fun q' => normKey q' = Some t)
                    (questionsOf Samples.variantChunkQuizzes) = Some (i, q) /\
          e = withId q (Z.of_nat k + 1)).
Proof.
  apply (mergeChunkQuizzes_keeps_first_occurrence Samples.variantChunkQuizzes).
  unfold wellFormed. apply (bool_decide_unpack _). vm_compute. exact I.
Defined.

(** C10.  Every entry of the output of [mergeChunkQuizzes] is an
    accepted input question with all its properties unchanged (the
    question text, the options, the correct answer, the topic and any
    other) except [questionId], which holds the entry's 1-based
    position; the accepted questions appear in input order. *)
Theorem mergeChunkQuizzes_preserves_fields (chunkQuizzes out : list JSValue) :
  mergeChunkQuizzes chunkQuizzes = Ok out ->
  exists acceptedQuestions,
    sublist acceptedQuestions (questionsOf chunkQuizzes) /\
    length out = length acceptedQuestions /\
    forall (k : nat) question,
      acceptedQuestions !! k = Some question ->
      exists o o',
        question = JObj o /\
        out !! k = Some (JObj o') /\
        o' !! "questionId" = Some (JNum (Z.of_nat k + 1)) /\
        o' !! "question" = o !! "question" /\
        o' !! "options" = o !! "options" /\
        o' !! "correct_answer" = o !! "correct_answer" /\
        o' !! "topic" = o !! "topic" /\
        forall field, field <> "questionId" -> o' !! field = o !! field.
Proof.
  intros Hout. pose proof (mergeChunkQuizzes_Ok _ _ Hout) as Hwf.
  rewrite mergeChunkQuizzes_wf in Hout by done. injection Hout as <-.
  exists (accepted ∅ (questionsOf chunkQuizzes)).
  split; [apply accepted_sublist|]. split; [apply renumberFrom_length|].
  intros k q Hk.
  assert (Hq : is_Some (questionText q)).
  { unfold wellFormed in Hwf. rewrite Forall_forall in Hwf. apply Hwf.
    eapply elem_of_sublist; [|apply accepted_sublist].
    eapply list_elem_of_lookup_2; eauto. }
  destruct q as [| | | | | |o]; try (by destruct Hq as [? [=]]).
  exists o, (<["questionId" := JNum (Z.of_nat k + 1)]> o).
  split; [done|]. split.
  { rewrite renumberFrom_lookup, Hk. by rewrite (Z.add_comm 1). }
  split; [apply lookup_insert_eq|].
  repeat split; try (by rewrite lookup_insert_ne).
  intros f Hf. by rewrite lookup_insert_ne.
Qed.

Lemma mergeChunkQuizzes_preserves_fields_witness :
  exists acceptedQuestions,
    sublist acceptedQuestions (questionsOf Samples.testChunkQuizzes) /\
    length Samples.testMerged = length acceptedQuestions /\
    forall (k : nat) question,
      acceptedQuestions !! k = Some question ->
      exists o o',
        question = JObj o /\
        Samples.testMerged !! k = Some (JObj o') /\
        o' !! "questionId" = Some (JNum (Z.of_nat k + 1)) /\
        o' !! "question" = o !! "question" /\
        o' !! "options" = o !! "options" /\
        o' !! "correct_answer" = o !! "correct_answer" /\
        o' !! "topic" = o !! "topic" /\
        forall field, field <> "questionId" -> o' !! field = o !! field.
Proof.
  apply (mergeChunkQuizzes_preserves_fields Samples.testChunkQuizzes Samples.testMerged).
  vm_compute. reflexivity.
Defined.

End MergerProps.

(** ** Chunk generator and orchestrator *)

Module GeneratorProps.

Import Server.

Example match_bracketed_block :
  matchBracketed "Here you go: [1, [2], 3] and ] more" = Some "[1, [2], 3] and ]".
Proof. reflexivity. Qed.

Example match_bracketed_none : matchBracketed "no closing [ bracket" = None.
Proof. reflexivity. Qed.

Example clean_options_of_sample :
  mapM_from (fun _ => cleanOption) 0
    [JStr "A) A name"; JStr "b.  A loop"; JStr "C: A type"; JStr "D - A file";
     JStr "  Paris  "; JStr "A name"; JStr "Dogs"; JStr " A) late label"]
  = Ok [JStr "A name"; JStr "A loop"; JStr "A type"; JStr "A file";
        JStr "Paris"; JStr "name"; JStr "Dogs"; JStr "A) late label"].
Proof. reflexivity. Qed.

Example normalized_sample :
  generateQuizFromChunk Samples.sampleModel Samples.sampleParse
    "Variables name values." (Some 2) "easy" "Intro to programming" 0
  = Ok [JObj (<["questionId" := JNum 1]>
             (<["question" := JStr "What is a variable?"]>
             (<["options" := JArr [JStr "A name"; JStr "A loop"; JStr "A type"; JStr "A file"]]>
             (<["correct_answer" := JStr "A"]>
             (<["topic" := JStr "General"]> ∅)))));
        JObj (<["questionId" := JNum 2]>
             (<["question" := JStr "What is a loop?"]>
             (<["options" := JArr [JStr "Repetition"; JStr "name"; JStr "type"; JStr "file"]]>
             (<["correct_answer" := JStr "A"]>
             (<["topic" := JStr "Control flow"]> ∅)))))].
Proof. vm_compute. reflexivity. Qed.

Section ChunkGenerator.

Context (generateContent : Prompt -> result string)
        (JSON_parse : string -> result JSValue).

(** The chunk generator always returns a list. *)
Lemma generateQuizFromChunk_total chunkText numQuestions difficulty videoTitle chunkIndex :
  exists out,
    generateQuizFromChunk generateContent JSON_parse chunkText numQuestions
      difficulty videoTitle chunkIndex = Ok out.
Proof.
  unfold generateQuizFromChunk.
  match goal with
  | |- exists _, tryCatch ?body _ = _ => destruct body eqn:Hbody
  end; simpl; eauto.
Qed.

(** Its result depends on the model only through the answer to its own
    prompt. *)
Lemma generateQuizFromChunk_ext (generateContent' : Prompt -> result string)
    chunkText numQuestions difficulty videoTitle chunkIndex :
  generateContent (buildPrompt chunkText numQuestions difficulty videoTitle chunkIndex) =
    generateContent' (buildPrompt chunkText numQuestions difficulty videoTitle chunkIndex) ->
  generateQuizFromChunk generateContent JSON_parse chunkText numQuestions
      difficulty videoTitle chunkIndex =
  generateQuizFromChunk generateContent' JSON_parse chunkText numQuestions
      difficulty videoTitle chunkIndex.
Proof. intros H. unfold generateQuizFromChunk. by rewrite H. Qed.

(** The fan-out returns one array per chunk, each the result of that
    chunk's own call. *)
Lemma generateChunks_total chunks questionsPerChunk difficulty videoTitle (start : nat) :
  exists quizzes,
    generateChunks generateContent JSON_parse chunks questionsPerChunk
      difficulty videoTitle start = Ok quizzes /\
    length quizzes = length chunks /\
    forall (j : nat) chunk,
      chunks !! j = Some chunk ->
      exists quiz,
        generateQuizFromChunk generateContent JSON_parse chunk
          (questionsPerChunk !! (start + j)%nat) difficulty videoTitle
          (Z.of_nat (start + j)) = Ok quiz /\
        quizzes !! j = Some (JArr quiz).
Proof.
  revert start. induction chunks as [|chunk rest IH]; intros start.
  - exists []. simpl. repeat split. intros j c. by rewrite lookup_nil.
  - destruct (generateQuizFromChunk_total chunk (questionsPerChunk !! start)
                difficulty videoTitle (Z.of_nat start)) as [quiz Hquiz].
    destruct (IH (S start)) as (quizzes & Hgen & Hlen & Hall).
    exists (JArr quiz :: quizzes). cbn [generateChunks]. rewrite Hquiz. cbn [bind].
    rewrite Hgen. cbn [bind]. split; [done|]. split; [simpl; lia|].
    intros [|j] c Hc.
    + injection Hc as <-. exists quiz. rewrite Nat.add_0_r. done.
    + simpl in Hc. destruct (Hall j c Hc) as (q & Hq & Hj).
      exists q. replace (start + S j)%nat with (S start + j)%nat by lia. done.
Qed.

Lemma mapM_from_length {A B} (f : Z -> A -> result B) idx l out :
  mapM_from f idx l = Ok out -> length out = length l.
Proof.
  revert idx out. induction l as [|x l IH]; intros idx out; simpl.
  - by intros [= <-].
  - destruct (f idx x); simpl; [|done].
    destruct (mapM_from f (idx + 1) l) eqn:Hrest; simpl; [|done].
    intros [= <-]. simpl. f_equal. eauto.
Qed.

Lemma cleanOptions_strings idx (opts : list string) :
  exists cleaned, mapM_from (fun _ => cleanOption) idx (map JStr opts) = Ok cleaned.
Proof.
  revert idx. induction opts as [|opt opts IH]; intros idx; simpl; [eauto|].
  destruct (IH (idx + 1)) as [cleaned ->]. simpl. eauto.
Qed.

Lemma normalizeQuestion_wellShaped idx q :
  wellShaped q -> exists r, normalizeQuestion idx q = Ok r.
Proof.
  intros (o & opts & -> & Hopts). unfold normalizeQuestion. simpl.
  destruct (truthy (default JUndefined (o !! "correct_answer"))); simpl;
    rewrite Hopts; simpl;
    destruct (cleanOptions_strings 0 opts) as [cleaned ->]; simpl; eauto.
Qed.

Lemma normalizeQuestions_wellShaped idx items :
  Forall wellShaped items -> exists out, mapM_from normalizeQuestion idx items = Ok out.
Proof.
  intros H. revert idx. induction H as [|q items Hq _ IH]; intros idx; simpl; [eauto|].
  destruct (normalizeQuestion_wellShaped idx q Hq) as [r ->]. simpl.
  destruct (IH (idx + 1)) as [out ->]. simpl. eauto.
Qed.

End ChunkGenerator.

Lemma dropWhile_run p run rest :
  allChars p run = true -> startsWith p rest = false ->
  dropWhile p (run +:+ rest) = rest.
Proof.
  induction run as [|c run IH]; simpl.
  - intros _. destruct rest as [|d rest]; simpl; [done|]. by intros ->.
  - intros [-> Hrun]%andb_true_iff Hrest. auto.
Qed.

(** C4, as stated, fails: with a quota of 1 and a raw answer holding
    two questions, the chunk generator returns both. *)
Lemma chunk_quota_exceeded_counterexample :
  ~ (forall generateContent JSON_parse chunkText (quota : Z)
            difficulty videoTitle chunkIndex out,
        generateQuizFromChunk generateContent JSON_parse chunkText (Some quota)
          difficulty videoTitle chunkIndex = Ok out ->
        Z.of_nat (length out) <= quota).
Proof.
  intros H.
  destruct (generateQuizFromChunk Samples.sampleModel Samples.sampleParse
              "Variables name values." (Some 1) "easy" "Intro to programming" 0)
    as [out|e] eqn:Hout; [|vm_compute in Hout; discriminate Hout].
  specialize (H _ _ _ _ _ _ _ _ Hout).
  vm_compute in Hout. injection Hout as <-. simpl in H. lia.
Qed.

(** C4, amended.  [generateQuizFromChunk] always returns a list and
    does not truncate it: when the raw answer parses to an array of
    question objects, each with an array of option strings, the result
    has exactly as many questions as that array, whatever the quota. *)
Theorem generateQuizFromChunk_no_truncation
    (generateContent : Prompt -> result string) (JSON_parse : string -> result JSValue)
    (chunkText : string) (numQuestions : option Z) (difficulty videoTitle : string)
    (chunkIndex : Z) :
  (exists out,
      generateQuizFromChunk generateContent JSON_parse chunkText numQuestions
        difficulty videoTitle chunkIndex = Ok out) /\
  (forall text items,
      generateContent (buildPrompt chunkText numQuestions difficulty videoTitle chunkIndex)
        = Ok text ->
      parseQuizData JSON_parse text = Ok (JArr items) ->
      Forall wellShaped items ->
      exists out,
        generateQuizFromChunk generateContent JSON_parse chunkText numQuestions
          difficulty videoTitle chunkIndex = Ok out /\
        length out = length items).
Proof.
  split; [apply generateQuizFromChunk_total|].
  intros text items Hgen Hparse Hshape. unfold generateQuizFromChunk.
  rewrite Hgen. cbn [bind]. rewrite Hparse. cbn [bind asArray].
  destruct (normalizeQuestions_wellShaped 0 items Hshape) as [out Hout].
  rewrite Hout. exists out. split; [done|]. by eapply mapM_from_length.
Qed.

Lemma generateQuizFromChunk_no_truncation_witness :
  exists out,
    generateQuizFromChunk Samples.sampleModel Samples.sampleParse
      "Variables name values." (Some 1) "easy" "Intro to programming" 0 = Ok out /\
    length out = 2%nat.
Proof.
  apply (proj2 (generateQuizFromChunk_no_truncation Samples.sampleModel Samples.sampleParse
                  "Variables name values." (Some 1) "easy" "Intro to programming" 0)
               Samples.sampleRaw Samples.sampleItems).
  - reflexivity.
  - vm_compute. reflexivity.
  - repeat constructor.
    + eexists _, ["A) A name"; "B. A loop"; "C: A type"; "D - A file"].
      split; reflexivity.
    + eexists _, ["Repetition"; "A name"; "A type"; "A file"]. split; reflexivity.
Defined.

Example negative_count_long_video :
  (fun r => match r with
            | Ok out => map (fun e => (questionText e, questionIdOf e)) out
            | Throw _ => []
            end)
    (generateQuiz Samples.sampleModel Samples.sampleParse Samples.longVideo (-1) "medium")
  = [(Some "What is a variable?", Some (JNum 1))].
Proof. vm_compute. reflexivity. Qed.

(** C5, as stated, fails: a call with the count -1 is not rejected, it
    returns the two questions of the single chunk. *)
Lemma negative_count_accepted_counterexample :
  ~ (forall generateContent JSON_parse videoInfo (numQuestions : Z) difficulty,
        numQuestions < 0 ->
        exists e,
          generateQuiz generateContent JSON_parse videoInfo numQuestions difficulty
            = Throw e).
Proof.
  intros H.
  destruct (H Samples.sampleModel Samples.sampleParse Samples.shortVideo (-1) "medium"
              ltac:(lia)) as [e He].
  vm_compute in He. discriminate He.
Qed.

(** C5, amended.  [generateQuiz] does not check its requested count: a
    negative count is handed on to chunk generation.  On the
    single-chunk path the call returns what the chunk generator
    returns for that quota.  On the multi-chunk path every chunk is
    generated with the distributed negative quotas, and when every
    generated question has a string text the call returns the merged
    list without its last [- numQuestions] entries. *)
Theorem generateQuiz_negative_count_not_rejected
    (generateContent : Prompt -> result string) (JSON_parse : string -> result JSValue)
    (videoInfo : VideoInfo) (numQuestions : Z) (difficulty : string) :
  numQuestions < 0 ->
  let len := Z.of_nat (String.length (transcript videoInfo)) in
  (len < 5000 ->
     exists out,
       generateQuiz generateContent JSON_parse videoInfo numQuestions difficulty = Ok out /\
       generateQuizFromChunk generateContent JSON_parse (transcript videoInfo)
         (Some numQuestions) difficulty (title videoInfo) 0 = Ok out) /\
  (5000 <= len ->
     let chunks :=
       splitTranscriptIntoChunks (transcript videoInfo) (calculateOptimalChunks len) in
     let quotas :=
       distributeQuestionsAcrossChunks numQuestions (Z.of_nat (length chunks)) in
     exists chunkQuizzes,
       generateChunks generateContent JSON_parse chunks quotas difficulty
         (title videoInfo) 0 = Ok chunkQuizzes /\
       length chunkQuizzes = length chunks /\
       (wellFormed chunkQuizzes ->
          exists merged,
            mergeChunkQuizzes chunkQuizzes = Ok merged /\
            generateQuiz generateContent JSON_parse videoInfo numQuestions difficulty =
              Ok (take (Z.to_nat (Z.of_nat (length merged) + numQuestions)) merged))).
Proof.
  intros Hneg len. split.
  - intros Hshort. unfold generateQuiz. fold len.
    rewrite PlannerProps.calculateOptimalChunks_short by done. simpl.
    destruct (generateQuizFromChunk_total generateContent JSON_parse (transcript videoInfo)
                (Some numQuestions) difficulty (title videoInfo) 0) as [out Hout].
    exists out. by rewrite Hout.
  - intros Hlong chunks quotas.
    destruct (generateChunks_total generateContent JSON_parse chunks quotas difficulty
                (title videoInfo) 0) as (chunkQuizzes & Hgen & Hlen & _).
    exists chunkQuizzes. split; [done|]. split; [done|].
    intros Hwf. eexists. split; [by apply MergerProps.mergeChunkQuizzes_wf|].
    unfold generateQuiz. fold len.
    pose proof (PlannerProps.calculateOptimalChunks_long len Hlong) as Hopt.
    destruct (Z.ltb_spec 1 (calculateOptimalChunks len)); [|lia]. cbn [negb].
    fold chunks. fold quotas. rewrite Hgen. cbn [bind].
    unfold mergeAndTrim. rewrite MergerProps.mergeChunkQuizzes_wf by done. cbn [bind].
    destruct (Z.ltb_spec numQuestions
                (Z.of_nat (length (renumberFrom 1 (accepted ∅ (questionsOf chunkQuizzes))))));
      [|lia].
    unfold slice0. destruct (Z.ltb_spec numQuestions 0); [|lia].
    do 2 f_equal. lia.
Qed.

Lemma generateQuiz_negative_count_not_rejected_witness :
  exists out,
    generateQuiz Samples.sampleModel Samples.sampleParse Samples.shortVideo (-1) "medium"
      = Ok out /\
    generateQuizFromChunk Samples.sampleModel Samples.sampleParse
      (transcript Samples.shortVideo) (Some (-1)) "medium" (title Samples.shortVideo) 0
      = Ok out.
Proof.
  apply (generateQuiz_negative_count_not_rejected Samples.sampleModel Samples.sampleParse
           Samples.shortVideo (-1) "medium").
  - lia.
  - simpl. lia.
Defined.

(** A short transcript whose only chunk fails: an empty quiz, no error. *)
Example failing_model_short_video :
  generateQuiz Samples.failingModel Samples.sampleParse Samples.shortVideo 10 "medium"
  = Ok [].
Proof. vm_compute. reflexivity. Qed.

Example flaky_model_long_video :
  (fun r => match r with
            | Ok out => map (fun e => (questionText e, questionIdOf e)) out
            | Throw _ => []
            end)
    (generateQuiz Samples.flakyModel Samples.sampleParse Samples.longVideo 4 "medium")
  = [(Some "What is a variable?", Some (JNum 1)); (Some "What is a loop?", Some (JNum 2))].
Proof. vm_compute. reflexivity. Qed.

(** C6.  When the model call of a chunk throws, or its answer fails the
    strict parse and has no bracketed block or a block that fails to
    parse too, [generateQuizFromChunk] returns the empty list.  In the
    fan-out every chunk has a result, and the result of a chunk is the
    same under any two models that answer that chunk's prompt alike,
    whatever they do on the prompts of the other chunks. *)
Theorem generateQuizFromChunk_failure_contained
    (generateContent : Prompt -> result string) (JSON_parse : string -> result JSValue) :
  (forall chunkText numQuestions difficulty videoTitle chunkIndex,
      let prompt := buildPrompt chunkText numQuestions difficulty videoTitle chunkIndex in
      (exists e, generateContent prompt = Throw e) \/
      (exists text,
          generateContent prompt = Ok text /\
          (exists e, JSON_parse text = Throw e) /\
          match matchBracketed text with
          | Some jsonMatch => exists e, JSON_parse jsonMatch = Throw e
          | None => True
          end) ->
      generateQuizFromChunk generateContent JSON_parse chunkText numQuestions
        difficulty videoTitle chunkIndex = Ok []) /\
  (forall (generateContent' : Prompt -> result string)
          chunks questionsPerChunk difficulty videoTitle,
      exists quizzes quizzes',
        generateChunks generateContent JSON_parse chunks questionsPerChunk
          difficulty videoTitle 0 = Ok quizzes /\
        generateChunks generateContent' JSON_parse chunks questionsPerChunk
          difficulty videoTitle 0 = Ok quizzes' /\
        length quizzes = length chunks /\
        length quizzes' = length chunks /\
        forall (j : nat) chunk,
          chunks !! j = Some chunk ->
          generateContent
            (buildPrompt chunk (questionsPerChunk !! j) difficulty videoTitle (Z.of_nat j)) =
          generateContent'
            (buildPrompt chunk (questionsPerChunk !! j) difficulty videoTitle (Z.of_nat j)) ->
          quizzes !! j = quizzes' !! j).
Proof.
  split.
  - intros chunkText numQuestions difficulty videoTitle chunkIndex prompt H.
    unfold generateQuizFromChunk. fold prompt.
    destruct H as [[e He]|(text & Htext & [e He] & Hfallback)].
    + by rewrite He.
    + rewrite Htext. cbn [bind]. unfold parseQuizData. rewrite He. cbn [tryCatch].
      destruct (matchBracketed text) as [jsonMatch|].
      * destruct Hfallback as [e' ->]. done.
      * done.
  - intros generateContent' chunks questionsPerChunk difficulty videoTitle.
    destruct (generateChunks_total generateContent JSON_parse chunks questionsPerChunk
                difficulty videoTitle 0) as (quizzes & Hgen & Hlen & Hall).
    destruct (generateChunks_total generateContent' JSON_parse chunks questionsPerChunk
                difficulty videoTitle 0) as (quizzes' & Hgen' & Hlen' & Hall').
    exists quizzes, quizzes'. repeat split; try done.
    intros j chunk Hchunk Hagree.
    destruct (Hall j chunk Hchunk) as (quiz & Hquiz & ->).
    destruct (Hall' j chunk Hchunk) as (quiz' & Hquiz' & ->).
    simpl in Hquiz, Hquiz'.
    rewrite (generateQuizFromChunk_ext generateContent JSON_parse generateContent')
      in Hquiz by done.
    congruence.
Qed.

Lemma generateQuizFromChunk_failure_contained_witness :
  generateQuizFromChunk Samples.failingModel Samples.sampleParse "Loops repeat work."
    (Some 3) "hard" "Intro to programming" 1 = Ok [] /\
  generateQuizFromChunk Samples.chattyModel Samples.sampleParse "Loops repeat work."
    (Some 3) "hard" "Intro to programming" 1 = Ok [].
Proof.
  split.
  - apply (proj1 (generateQuizFromChunk_failure_contained
                    Samples.failingModel Samples.sampleParse)).
    left. eexists. reflexivity.
  - apply (proj1 (generateQuizFromChunk_failure_contained
                    Samples.chattyModel Samples.sampleParse)).
    right. eexists. split; [reflexivity|]. split.
    + eexists. vm_compute. reflexivity.
    + vm_compute. eexists. reflexivity.
Defined.

(** C8.  The code at two options that begin with no label decoration
    or with a shorter one than the pattern removes: ["A cat"] has a
    letter and a space but no punctuation mark, yet it is stored as
    ["cat"]; in ["A) -5"] the decoration is ["A) "], yet the minus sign
    goes with it and ["5"] is stored.  The character class of the
    pattern holds white space and the hyphen beside the punctuation
    marks, against the comment above it, which speaks of letter
    prefixes like [A)] and [B.], and against the prompt, which asks for
    options without such prefixes. *)
Lemma cleanOption_past_the_label :
  beginsWithLabelDecoration "A cat" = false /\
  cleanOption (JStr "A cat") = Ok (JStr "cat") /\
  cleanOption (JStr "A) -5") = Ok (JStr "5").
Proof. repeat split; reflexivity. Qed.

(** Hence not every option without a label decoration is stored
    unchanged apart from trimming. *)
Lemma letter_then_space_counterexample :
  ~ (forall opt : string,
        beginsWithLabelDecoration opt = false ->
        cleanOption (JStr opt) = Ok (JStr (trim opt))).
Proof.
  intros H. specialize (H "A cat" eq_refl). vm_compute in H. discriminate H.
Qed.

(** What the pattern does remove: a leading letter A to D (either
    case) together with the whole run of one or more characters after
    it that are [)], [.], [:], [-] or white space, and the rest is
    trimmed; an option that does not begin with such a letter followed
    by at least one such character is stored unchanged apart from
    trimming. *)
Theorem cleanOption_strips_label_run :
  (forall (letter : ascii) (run rest : string),
      isOptionLetter letter = true ->
      run <> EmptyString ->
      allChars isLabelTail run = true ->
      startsWith isLabelTail rest = false ->
      cleanOption (JStr (String letter (run +:+ rest))) = Ok (JStr (trim rest))) /\
  (forall opt : string,
      beginsWithLabelRun opt = false ->
      cleanOption (JStr opt) = Ok (JStr (trim opt))).
Proof.
  split.
  - intros letter run rest Hl Hne Hrun Hrest. unfold cleanOption. simpl.
    destruct run as [|d run]; [done|]. simpl in *.
    apply andb_true_iff in Hrun as [Hd Hrun].
    rewrite Hl, Hd. simpl. by rewrite dropWhile_run.
  - intros opt H. unfold cleanOption. simpl. do 3 f_equal.
    destruct opt as [|c [|d rest]]; try done. simpl in *. by rewrite H.
Qed.

Lemma cleanOption_strips_label_run_witness :
  cleanOption (JStr "D - Paris ") = Ok (JStr "Paris") /\
  cleanOption (JStr "  Berlin") = Ok (JStr "Berlin").
Proof.
  split.
  - apply (proj1 cleanOption_strips_label_run "D"%char " - " "Paris "); done.
  - apply (proj2 cleanOption_strips_label_run "  Berlin"). done.
Defined.

End GeneratorProps.

(** ** Content cache *)

Module CacheProps.

Import Server.

Lemma updateAccess_keeps_id now doc :
  TranscriptCache.videoId (TranscriptCache.updateAccess now doc) =
  TranscriptCache.videoId doc.
Proof. reflexivity. Qed.

(** A hit keeps every document filed under its own identifier. *)
Lemma cacheCheck_keyedById now db key :
  keyedById db -> keyedById (snd (cacheCheck now db key)).
Proof.
  intros Hdb. unfold cacheCheck, TranscriptCache.findOne.
  destruct (db !! key) as [doc|] eqn:Hdoc; [|done]. simpl.
  unfold TranscriptCache.save. apply map_Forall_insert_2; [done|done].
Qed.

(** So does a whole call of [getVideoInfo]. *)
Lemma getVideoInfo_keyedById fetchOrigin now db key useCache :
  keyedById db -> keyedById (snd (getVideoInfo fetchOrigin now db key useCache)).
Proof.
  intros Hdb.
  assert (Hfetch : forall db0, keyedById db0 ->
            keyedById (snd (fetchAndCache fetchOrigin now db0 key useCache))).
  { intros db0 Hdb0. unfold fetchAndCache.
    destruct (fetchOrigin key) as [[video|]|e]; try exact Hdb0.
    destruct (MAX_VIDEO_DURATION_MINUTES <? _); [exact Hdb0|].
    destruct (useCache && _); [|exact Hdb0]. cbn [snd].
    unfold TranscriptCache.findOneAndUpdate.
    apply map_Forall_insert_2; [reflexivity|exact Hdb0]. }
  unfold getVideoInfo. destruct useCache; [|by apply Hfetch].
  pose proof (cacheCheck_keyedById now db key Hdb) as Hcheck.
  destruct (cacheCheck now db key) as [[info|] db']; [exact Hcheck|].
  apply Hfetch. exact Hcheck.
Qed.

(** Fetch, then look up twice: the first call misses and stores, each
    later call hits and counts one access. *)
Example store_then_lookup_twice :
  let '(first, db1) := getVideoInfo Samples.sampleOrigin 1000 ∅ "abc123" true in
  let '(second, db2) := getVideoInfo Samples.sampleOrigin 2000 db1 "abc123" true in
  let '(third, db3) := getVideoInfo Samples.sampleOrigin 3000 db2 "abc123" true in
  (fromCache <$> first, fromCache <$> second, fromCache <$> third,
   TranscriptCache.accessCount <$> db1 !! "abc123",
   TranscriptCache.accessCount <$> db2 !! "abc123",
   TranscriptCache.accessCount <$> db3 !! "abc123",
   TranscriptCache.lastAccessed <$> db3 !! "abc123",
   TranscriptCache.cachedAt <$> db3 !! "abc123")
  = (Some false, Some true, Some true, Some 1, Some 2, Some 3, Some 3000, Some 1000).
Proof. vm_compute. reflexivity. Qed.

(** C9.  A lookup of a key with a stored document returns the cached
    fields of that document, and afterwards the stored document has
    its access counter one higher and its last-accessed time set to the
    time of the lookup, everything else and every other document being
    unchanged; a lookup of a key without a document returns nothing,
    leaves the collection as it is, and the caller goes on to the
    origin. *)
Theorem getVideoInfo_cache_hit_and_miss
    (fetchOrigin : string -> result (option OriginVideo)) (now : Z)
    (db : TranscriptCache.Collection) (key : string) :
  keyedById db ->
  (forall doc,
      db !! key = Some doc ->
      exists info db' doc',
        getVideoInfo fetchOrigin now db key true = (Some info, db') /\
        cacheCheck now db key = (Some info, db') /\
        id info = key /\
        title info = TranscriptCache.title doc /\
        description info = TranscriptCache.description doc /\
        channelTitle info = TranscriptCache.channelTitle doc /\
        publishedAt info = TranscriptCache.publishedAt doc /\
        duration info = TranscriptCache.duration doc /\
        durationMinutes info = TranscriptCache.durationMinutes doc /\
        transcript info = TranscriptCache.transcript doc /\
        fromCache info = true /\
        db' !! key = Some doc' /\
        TranscriptCache.accessCount doc' = TranscriptCache.accessCount doc + 1 /\
        TranscriptCache.lastAccessed doc' = now /\
        TranscriptCache.cachedAt doc' = TranscriptCache.cachedAt doc /\
        TranscriptCache.transcript doc' = TranscriptCache.transcript doc /\
        TranscriptCache.transcriptLength doc' = TranscriptCache.transcriptLength doc /\
        (forall other, other <> key -> db' !! other = db !! other)) /\
  (db !! key = None ->
      cacheCheck now db key = (None, db) /\
      getVideoInfo fetchOrigin now db key true =
        fetchAndCache fetchOrigin now db key true).
Proof.
  intros Hkeyed. split.
  - intros doc Hdoc. pose proof (Hkeyed _ _ Hdoc) as Hid. simpl in Hid.
    unfold getVideoInfo, cacheCheck, TranscriptCache.findOne. rewrite Hdoc.
    eexists _, _, (TranscriptCache.updateAccess now doc).
    split; [reflexivity|]. split; [reflexivity|].
    unfold TranscriptCache.save. simpl. rewrite Hid.
    repeat split.
    + apply lookup_insert_eq.
    + intros other Hne. by rewrite lookup_insert_ne.
  - intros Hnone. unfold getVideoInfo, cacheCheck, TranscriptCache.findOne.
    by rewrite Hnone.
Qed.

Lemma getVideoInfo_cache_hit_and_miss_witness :
  (exists info db' doc',
      getVideoInfo Samples.noOrigin 2000 Samples.sampleDb "abc123" true = (Some info, db') /\
      transcript info = "Variables name values. Loops repeat work." /\
      fromCache info = true /\
      db' !! "abc123" = Some doc' /\
      TranscriptCache.accessCount doc' = 2 /\
      TranscriptCache.lastAccessed doc' = 2000) /\
  cacheCheck 2000 Samples.sampleDb "zzz999" = (None, Samples.sampleDb).
Proof.
  assert (Hkeyed : keyedById Samples.sampleDb).
  { unfold keyedById. apply (bool_decide_unpack _). vm_compute. exact I. }
  split.
  - destruct (proj1 (getVideoInfo_cache_hit_and_miss Samples.noOrigin 2000
                       Samples.sampleDb "abc123" Hkeyed) Samples.cachedDoc eq_refl)
      as (info & db' & doc' & Hget & _ & _ & _ & _ & _ & _ & _ & _ & Htr & Hfrom
          & Hdb' & Hcount & Hlast & _).
    exists info, db', doc'. repeat split; assumption.
  - apply (proj2 (getVideoInfo_cache_hit_and_miss Samples.noOrigin 2000
                    Samples.sampleDb "zzz999" Hkeyed)).
    reflexivity.
Defined.

End CacheProps.

(** * Further properties of the code *)

(** ** The merger: failure, idempotence and size *)

Module MergerExtras.

Import Server MergerProps.

Lemma foldM_mergeQuestion_error qs st e :
  foldM mergeQuestion qs st = Throw e -> e = TypeError.
Proof.
  revert st. induction qs as [|q qs IH]; intros st; simpl; [done|].
  unfold mergeQuestion at 1. rewrite normalizedQuestionOf_key.
  destruct (normKey q) as [k|]; simpl; [|by intros [= <-]].
  destruct (decide _); simpl; eauto.
Qed.

(** X1.  [mergeChunkQuizzes] throws exactly when some question of some
    chunk has no string [question] property (its [toLowerCase] call
    fails), and a [TypeError] is the only thing it ever throws. *)
Theorem mergeChunkQuizzes_throws_iff (chunkQuizzes : list JSValue) :
  (mergeChunkQuizzes chunkQuizzes = Throw TypeError <->
     exists q, q ∈ questionsOf chunkQuizzes /\ questionText q = None) /\
  (forall e, mergeChunkQuizzes chunkQuizzes = Throw e -> e = TypeError).
Proof.
  assert (Herr : forall e, mergeChunkQuizzes chunkQuizzes = Throw e -> e = TypeError).
  { intros e. unfold mergeChunkQuizzes. rewrite merge_flat.
    destruct (foldM mergeQuestion _ _) as [st|e'] eqn:Hfold; simpl; [done|].
    intros [= <-]. by eapply foldM_mergeQuestion_error. }
  split; [|exact Herr]. split.
  - intros Hthrow.
    destruct (decide (wellFormed chunkQuizzes)) as [Hwf|Hnwf].
    { rewrite mergeChunkQuizzes_wf in Hthrow by done. done. }
    unfold wellFormed in Hnwf. apply not_Forall_Exists in Hnwf; [|apply _].
    apply Exists_exists in Hnwf as (q & Hq & Hnone).
    exists q. split; [done|]. by apply eq_None_not_Some.
  - intros (q & Hq & Hnone).
    destruct (mergeChunkQuizzes chunkQuizzes) as [out|e] eqn:Hmerge.
    + apply mergeChunkQuizzes_Ok in Hmerge. unfold wellFormed in Hmerge.
      rewrite Forall_forall in Hmerge. specialize (Hmerge q Hq).
      rewrite Hnone in Hmerge. by destruct Hmerge.
    + by rewrite (Herr e eq_refl).
Qed.

Lemma withId_withId q n m : withId (withId q n) m = withId q m.
Proof. unfold withId. simpl. by rewrite insert_insert_eq. Qed.

Lemma renumberFrom_renumberFrom n m l :
  renumberFrom m (renumberFrom n l) = renumberFrom m l.
Proof.
  revert n m. induction l as [|q l IH]; intros n m; simpl; [done|].
  by rewrite withId_withId, IH.
Qed.

Lemma accepted_all seen qs :
  Forall (fun q => is_Some (normKey q)) qs ->
  NoDup (map normKey qs) ->
  (forall q t, q ∈ qs -> normKey q = Some t -> t ∉ seen) ->
  accepted seen qs = qs.
Proof.
  intros Hwf. revert seen. induction Hwf as [|q qs [k Hk] _ IH]; intros seen Hnd Hfresh;
    simpl; [done|].
  rewrite Hk. rewrite decide_False by (eapply Hfresh; [left|done]).
  f_equal. simpl in Hnd. apply NoDup_cons in Hnd as [Hnotin Hnd].
  apply IH; [done|].
  intros q' t Hq' Ht. apply not_elem_of_union. split.
  - rewrite elem_of_singleton. intros ->. apply Hnotin.
    rewrite Hk, <- Ht. by apply list_elem_of_fmap_2.
  - eapply Hfresh; [by right|done].
Qed.

(** X2.  Merging is idempotent: a merged list handed back to
    [mergeChunkQuizzes] as a single chunk comes out unchanged, with the
    same questions under the same identifiers. *)
Theorem mergeChunkQuizzes_idempotent (chunkQuizzes out : list JSValue) :
  mergeChunkQuizzes chunkQuizzes = Ok out ->
  mergeChunkQuizzes [JArr out] = Ok out.
Proof.
  intros Hout. pose proof (mergeChunkQuizzes_Ok _ _ Hout) as Hwf.
  rewrite mergeChunkQuizzes_wf in Hout by done. injection Hout as <-.
  set (acc := accepted ∅ (questionsOf chunkQuizzes)).
  assert (Hacc : Forall (fun q => is_Some (normKey q)) acc).
  { apply accepted_wf. by apply wellFormed_keys. }
  assert (Hkeys : map normKey (renumberFrom 1 acc) = map normKey acc)
    by (by apply renumberFrom_keys).
  assert (Hwf' : Forall (fun q => is_Some (normKey q)) (renumberFrom 1 acc)).
  { apply (Forall_fmap normKey is_Some). unfold fmap, list_fmap.
    fold (map normKey (renumberFrom 1 acc)). rewrite Hkeys.
    by apply (Forall_fmap normKey is_Some). }
  rewrite mergeChunkQuizzes_wf.
  2:{ apply wellFormed_keys. simpl. by rewrite app_nil_r. }
  simpl. rewrite app_nil_r. rewrite accepted_all.
  - by rewrite renumberFrom_renumberFrom.
  - done.
  - rewrite Hkeys. apply accepted_keys_NoDup.
  - set_solver.
Qed.

Lemma size_fresh_union (k : string) (K seen : gset string) :
  k ∉ seen ->
  size (({[k]} ∪ K) ∖ seen) = S (size (K ∖ ({[k]} ∪ seen))).
Proof.
  intros Hk.
  replace (({[k]} ∪ K) ∖ seen) with ({[k]} ∪ K ∖ ({[k]} ∪ seen)).
  - rewrite size_union by set_solver. by rewrite size_singleton.
  - apply set_eq. intros x. rewrite !elem_of_union, !elem_of_difference,
      !elem_of_union, !elem_of_singleton.
    destruct (decide (x = k)) as [->|]; naive_solver.
Qed.

Lemma accepted_length seen qs :
  length (accepted seen qs) =
  size ((list_to_set (omap normKey qs) : gset string) ∖ seen).
Proof.
  revert seen. induction qs as [|q qs IH]; intros seen; simpl.
  - replace ((∅ : gset string) ∖ seen) with (∅ : gset string) by set_solver.
    by rewrite size_empty.
  - destruct (normKey q) as [k|] eqn:Hk; simpl; [|apply IH].
    destruct (decide (k ∈ seen)) as [Hin|Hnin].
    + rewrite IH. f_equal. set_solver.
    + simpl. rewrite IH. by rewrite size_fresh_union.
Qed.

(** X3.  The merged list has exactly one entry for each distinct
    normalized question text of the input, hence never more entries
    than the input has questions. *)
Theorem mergeChunkQuizzes_counts_distinct_texts (chunkQuizzes out : list JSValue) :
  mergeChunkQuizzes chunkQuizzes = Ok out ->
  length out = size (list_to_set (omap normKey (questionsOf chunkQuizzes)) : gset string) /\
  (length out <= length (questionsOf chunkQuizzes))%nat.
Proof.
  intros Hout. pose proof (mergeChunkQuizzes_Ok _ _ Hout) as Hwf.
  rewrite mergeChunkQuizzes_wf in Hout by done. injection Hout as <-.
  rewrite renumberFrom_length. split.
  - rewrite accepted_length. f_equal. set_solver.
  - apply sublist_length, accepted_sublist.
Qed.

Lemma mergeChunkQuizzes_idempotent_witness :
  mergeChunkQuizzes [JArr Samples.testMerged] = Ok Samples.testMerged.
Proof.
  apply (mergeChunkQuizzes_idempotent Samples.testChunkQuizzes Samples.testMerged).
  vm_compute. reflexivity.
Defined.

Lemma mergeChunkQuizzes_counts_distinct_texts_witness :
  length Samples.testMerged =
    size (list_to_set (omap normKey (questionsOf Samples.testChunkQuizzes)) : gset string) /\
  (length Samples.testMerged <= length (questionsOf Samples.testChunkQuizzes))%nat.
Proof.
  apply (mergeChunkQuizzes_counts_distinct_texts Samples.testChunkQuizzes Samples.testMerged).
  vm_compute. reflexivity.
Defined.

End MergerExtras.

(** ** The splitter: the general path *)

Module SplitterExtras.

Import Server.

Lemma append_empty_r (s : string) : s +:+ EmptyString = s.
Proof.
  induction s as [|c s IH]; [done|].
  change (String c (s +:+ EmptyString) = String c s). by f_equal.
Qed.

(** Reading a run of code units that are not white space only grows
    the current piece. *)
Lemma splitFrom_word w s cur inRun :
  spaceFree w = true ->
  w <> EmptyString ->
  exists cur',
    splitWhitespaceFrom (w +:+ s) cur inRun = splitWhitespaceFrom s cur' false /\
    forall acc, revAppend cur' acc = revAppend cur (w +:+ acc).
Proof.
  revert cur inRun. induction w as [|c w IH]; intros cur inRun Hw Hne; [done|].
  unfold spaceFree in Hw. simpl in Hw. apply andb_true_iff in Hw as [Hc Hw].
  apply negb_true_iff in Hc. simpl. rewrite Hc.
  destruct w as [|d w'].
  - exists (String c cur). split; done.
  - destruct (IH (String c cur) false Hw ltac:(done)) as (cur' & Heq & Hrev).
    exists cur'. split; [done|]. intros acc. by rewrite Hrev.
Qed.

Lemma filter_nonempty_flag s inRun :
  filter (fun w => w <> EmptyString) (splitWhitespaceFrom s EmptyString inRun) =
  filter (fun w => w <> EmptyString) (splitWhitespaceFrom s EmptyString false).
Proof.
  destruct inRun; [|done]. destruct s as [|c s]; simpl; [done|].
  destruct (isWhitespace c); [|done]. simpl.
  by rewrite filter_cons_False by (intros H; by apply H).
Qed.

Lemma nonEmptyWords_join ws :
  Forall (fun w => spaceFree w = true) ws ->
  nonEmptyWords (join " " ws) = filter (fun w => w <> EmptyString) ws.
Proof.
  unfold nonEmptyWords, splitWhitespace.
  induction 1 as [|w ws Hw Hws IH]; [done|].
  destruct ws as [|w2 ws'].
  - cbn [join]. destruct w as [|c w]; [done|].
    destruct (splitFrom_word (String c w) EmptyString EmptyString false Hw ltac:(done))
      as (cur' & Heq & Hrev).
    rewrite append_empty_r in Heq. rewrite Heq. cbn [splitWhitespaceFrom].
    rewrite Hrev. cbn [revAppend]. rewrite append_empty_r. done.
  - change (join " " (w :: w2 :: ws')) with (w +:+ " " +:+ join " " (w2 :: ws')).
    set (J := join " " (w2 :: ws')) in *.
    destruct w as [|c w].
    + change (splitWhitespaceFrom (EmptyString +:+ " " +:+ J) EmptyString false)
        with (EmptyString :: splitWhitespaceFrom J EmptyString true).
      rewrite !(filter_cons_False _ EmptyString) by (intros H; by apply H).
      by rewrite (filter_nonempty_flag J true).
    + destruct (splitFrom_word (String c w) (" " +:+ J) EmptyString false Hw ltac:(done))
        as (cur' & Heq & Hrev).
      rewrite Heq.
      change (splitWhitespaceFrom (" " +:+ J) cur' false)
        with (revAppend cur' EmptyString :: splitWhitespaceFrom J EmptyString true).
      rewrite Hrev. cbn [revAppend]. rewrite append_empty_r.
      rewrite !(filter_cons_True _ (String c w)) by done. f_equal.
      by rewrite (filter_nonempty_flag J true).
Qed.

(** Every piece of [splitWhitespace] is free of white space. *)
Lemma splitWhitespaceFrom_spaceFree s cur inRun :
  (forall acc, spaceFree acc = true -> spaceFree (revAppend cur acc) = true) ->
  Forall (fun w => spaceFree w = true) (splitWhitespaceFrom s cur inRun).
Proof.
  revert cur inRun. induction s as [|c s IH]; intros cur inRun Hcur; simpl.
  - constructor; [by apply Hcur|constructor].
  - destruct (isWhitespace c) eqn:Hc.
    + destruct inRun; [by apply IH|].
      constructor; [by apply Hcur|]. apply IH. by intros acc.
    + apply IH. intros acc Hacc. simpl. apply Hcur.
      unfold spaceFree. simpl. by rewrite Hc.
Qed.

Lemma splitWhitespace_spaceFree s :
  Forall (fun w => spaceFree w = true) (splitWhitespace s).
Proof. apply splitWhitespaceFrom_spaceFree. by intros acc. Qed.

(** A blank text has no word. *)
Lemma trimEnd_nonempty c s : isWhitespace c = false -> trimEnd (String c s) <> EmptyString.
Proof. intros Hc. simpl. destruct (trimEnd s); [by rewrite Hc|done]. Qed.

Lemma blank_all_whitespace s : trim s = EmptyString -> allChars isWhitespace s = true.
Proof.
  unfold trim, trimStart. induction s as [|c s IH]; [done|]. simpl.
  destruct (isWhitespace c) eqn:Hc; [done|].
  intros H. by apply trimEnd_nonempty in H.
Qed.

Lemma whitespace_no_word s inRun :
  allChars isWhitespace s = true ->
  filter (fun w => w <> EmptyString) (splitWhitespaceFrom s EmptyString inRun) = [].
Proof.
  revert inRun. induction s as [|c s IH]; intros inRun; simpl.
  - intros _. by rewrite filter_cons_False by (intros H; by apply H).
  - intros [-> Hs]%andb_true_iff. destruct inRun; [by apply IH|].
    rewrite filter_cons_False by (intros H; by apply H). by apply IH.
Qed.

Lemma blank_no_word s : trim s = EmptyString -> nonEmptyWords s = [].
Proof. intros H. apply whitespace_no_word. by apply blank_all_whitespace. Qed.

Lemma concat_words_drop_blank (texts : list string) :
  concat (map nonEmptyWords
            (filter (fun chunk => 0 < Z.of_nat (String.length (trim chunk))) texts)) =
  concat (map nonEmptyWords texts).
Proof.
  induction texts as [|t texts IH]; [done|].
  destruct (decide (0 < Z.of_nat (String.length (trim t)))) as [Hpos|Hblank].
  - rewrite filter_cons_True by done. simpl. by rewrite IH.
  - rewrite filter_cons_False by done. simpl. rewrite IH.
    rewrite (blank_no_word t); [done|].
    destruct (trim t); [done|]. simpl in Hblank. lia.
Qed.

Lemma concat_filter_slices (slices : list (list string)) :
  Forall (Forall (fun w => spaceFree w = true)) slices ->
  concat (map nonEmptyWords (map (join " ") slices)) =
  filter (fun w => w <> EmptyString) (concat slices).
Proof.
  induction 1 as [|sl slices Hsl _ IH]; [done|].
  simpl. rewrite IH, nonEmptyWords_join by done. by rewrite filter_app.
Qed.

Lemma ceilDiv_bounds a b :
  0 <= a -> 1 <= b -> a <= b * ceilDiv a b /\ (1 <= a -> 1 <= ceilDiv a b).
Proof.
  intros Ha Hb. unfold ceilDiv.
  pose proof (Z.div_mod (- a) b ltac:(lia)).
  pose proof (Z.mod_pos_bound (- a) b ltac:(lia)).
  split; [nia|]. intros H1. nia.
Qed.

Lemma splitWhitespaceFrom_nonempty s cur inRun :
  (1 <= length (splitWhitespaceFrom s cur inRun))%nat.
Proof.
  revert cur inRun. induction s as [|c s IH]; intros cur inRun; simpl; [lia|].
  destruct (isWhitespace c); [destruct inRun|]; simpl; auto; lia.
Qed.

Lemma slice_as_take {A} (l : list A) (a w : nat) :
  slice l (Z.of_nat a) (Z.min (Z.of_nat a + Z.of_nat w) (Z.of_nat (length l))) =
  take w (drop a l).
Proof.
  unfold slice. rewrite Nat2Z.id.
  destruct (decide (a + w <= length l)%nat) as [Hle|Hgt].
  - f_equal. lia.
  - rewrite !take_ge; [done| |]; rewrite length_drop; lia.
Qed.

Lemma concat_slices {A} (l : list A) (w n : nat) :
  concat (map (fun i => slice l (i * Z.of_nat w)
                          (Z.min (i * Z.of_nat w + Z.of_nat w) (Z.of_nat (length l))))
              (seqZ 0 (Z.of_nat n))) =
  take (n * w) l.
Proof.
  induction n as [|n IH]; [done|].
  replace (Z.of_nat (S n)) with (Z.of_nat n + 1) by lia.
  rewrite seqZ_app by lia. rewrite map_app, concat_app, IH.
  change (seqZ (0 + Z.of_nat n) 1) with [0 + Z.of_nat n]. cbn [map concat].
  rewrite app_nil_r.
  replace ((0 + Z.of_nat n) * Z.of_nat w) with (Z.of_nat (n * w)) by lia.
  rewrite slice_as_take, take_take_drop. f_equal. lia.
Qed.

Lemma splitTranscriptIntoChunks_length (transcript : string) (numChunks : Z) :
  1 <= numChunks ->
  Z.of_nat (length (splitTranscriptIntoChunks transcript numChunks)) <= numChunks.
Proof.
  intros Hn. unfold splitTranscriptIntoChunks. case_ltb; try (simpl; lia).
  match goal with
  | |- context [filter ?P ?l] => pose proof (length_filter P l) as Hf
  end.
  rewrite length_map, length_seqZ in Hf. lia.
Qed.


(** The general path in closed form: the word list is cut into
    [numChunks] consecutive slices, and the chunks are the joined
    slices that are not blank. *)
Lemma split_long_slices (transcript : string) (numChunks : Z) :
  5000 <= Z.of_nat (String.length transcript) ->
  1 <= numChunks ->
  let words := splitWhitespace transcript in
  let wordsPerChunk := ceilDiv (Z.of_nat (length words)) numChunks in
  exists slices : list (list string),
    Z.of_nat (length slices) = numChunks /\
    concat slices = words /\
    Forall (fun sl => Z.of_nat (length sl) <= wordsPerChunk) slices /\
    Forall (Forall (fun w => spaceFree w = true)) slices /\
    splitTranscriptIntoChunks transcript numChunks =
      filter (fun chunk => 0 < Z.of_nat (String.length (trim chunk)))
             (map (join " ") slices).
Proof.
  intros Hlen Hn words wordsPerChunk.
  assert (Hwords : (1 <= length words)%nat) by apply splitWhitespaceFrom_nonempty.
  destruct (ceilDiv_bounds (Z.of_nat (length words)) numChunks) as [Hcover Hpos];
    [lia|lia|]. fold wordsPerChunk in Hcover, Hpos. specialize (Hpos ltac:(lia)).
  set (slices := map (fun i => slice words (i * wordsPerChunk)
                                 (Z.min (i * wordsPerChunk + wordsPerChunk)
                                        (Z.of_nat (length words))))
                     (seqZ 0 numChunks)).
  exists slices. split; [|split; [|split; [|split]]].
  - unfold slices. rewrite length_map, length_seqZ. lia.
  - unfold slices.
    replace wordsPerChunk with (Z.of_nat (Z.to_nat wordsPerChunk)) by lia.
    replace numChunks with (Z.of_nat (Z.to_nat numChunks)) by lia.
    rewrite concat_slices. apply take_ge. nia.
  - unfold slices. apply Forall_forall. intros sl (i & -> & Hi)%list_elem_of_fmap.
    unfold slice. rewrite length_take. lia.
  - unfold slices. apply Forall_forall. intros sl (i & -> & Hi)%list_elem_of_fmap.
    unfold slice. apply Forall_take, Forall_drop, splitWhitespace_spaceFree.
  - unfold splitTranscriptIntoChunks.
    destruct (Z.eqb_spec (Z.of_nat (String.length transcript)) 0); [lia|].
    destruct (Z.ltb_spec (Z.of_nat (String.length transcript)) 5000); [lia|].
    fold words. fold wordsPerChunk. unfold slices. by rewrite map_map.
Qed.

(** X4.  On a transcript of 5,000 characters or more the splitter cuts
    the list of white-space separated pieces into [numChunks]
    consecutive slices of at most [ceil(words / numChunks)] pieces,
    joins each with single spaces and drops the blank ones: there are
    at most [numChunks] chunks, none is blank, and none has more than
    [ceil(words / numChunks)] words. *)
Theorem splitTranscriptIntoChunks_partition (transcript : string) (numChunks : Z) :
  5000 <= Z.of_nat (String.length transcript) ->
  1 <= numChunks ->
  let words := splitWhitespace transcript in
  let wordsPerChunk := ceilDiv (Z.of_nat (length words)) numChunks in
  let chunks := splitTranscriptIntoChunks transcript numChunks in
  Z.of_nat (length chunks) <= numChunks /\
  Forall (fun chunk => trim chunk <> EmptyString) chunks /\
  Forall (fun chunk => Z.of_nat (length (nonEmptyWords chunk)) <= wordsPerChunk) chunks /\
  exists slices : list (list string),
    Z.of_nat (length slices) = numChunks /\
    concat slices = words /\
    Forall (fun sl => Z.of_nat (length sl) <= wordsPerChunk) slices /\
    chunks = filter (fun chunk => 0 < Z.of_nat (String.length (trim chunk)))
                    (map (join " ") slices).
Proof.
  intros Hlen Hn words wordsPerChunk chunks.
  destruct (split_long_slices transcript numChunks Hlen Hn)
    as (slices & Hcount & Hconcat & Hsize & Hfree & Hsplit).
  fold words in Hconcat. fold wordsPerChunk in Hsize. fold chunks in Hsplit.
  split; [by apply splitTranscriptIntoChunks_length|].
  split; [|split].
  - rewrite Hsplit. apply Forall_forall. intros chunk [Hpos' _]%list_elem_of_filter.
    intros Heq. rewrite Heq in Hpos'. simpl in Hpos'. lia.
  - rewrite Hsplit. apply Forall_forall.
    intros chunk [_ (sl & -> & Hsl)%list_elem_of_fmap]%list_elem_of_filter.
    rewrite Forall_forall in Hsize, Hfree.
    rewrite nonEmptyWords_join by auto.
    apply Z.le_trans with (Z.of_nat (length sl)); [|by apply Hsize].
    apply Nat2Z.inj_le, length_filter.
  - by exists slices.
Qed.

(** X5.  Splitting loses no word and reorders none: the words of the
    chunks, taken chunk after chunk, are the words of the transcript. *)
Theorem splitTranscriptIntoChunks_keeps_words (transcript : string) (numChunks : Z) :
  1 <= numChunks ->
  concat (map nonEmptyWords (splitTranscriptIntoChunks transcript numChunks)) =
  nonEmptyWords transcript.
Proof.
  intros Hn.
  destruct (Z.ltb_spec (Z.of_nat (String.length transcript)) 5000) as [Hshort|Hlong].
  - unfold splitTranscriptIntoChunks.
    destruct (Z.eqb_spec (Z.of_nat (String.length transcript)) 0) as [Hz|Hnz].
    + destruct transcript; [done|simpl in Hz; lia].
    + destruct (Z.ltb_spec (Z.of_nat (String.length transcript)) 5000); [|lia].
      simpl. by rewrite app_nil_r.
  - destruct (split_long_slices transcript numChunks Hlong Hn)
      as (slices & _ & Hconcat & _ & Hfree & ->).
    rewrite concat_words_drop_blank, concat_filter_slices by done.
    by rewrite Hconcat.
Qed.

Lemma splitTranscriptIntoChunks_partition_witness :
  let transcript := transcript Samples.longVideo in
  let words := splitWhitespace transcript in
  let wordsPerChunk := ceilDiv (Z.of_nat (length words)) 3 in
  let chunks := splitTranscriptIntoChunks transcript 3 in
  Z.of_nat (length chunks) <= 3 /\
  Forall (fun chunk => trim chunk <> EmptyString) chunks /\
  Forall (fun chunk => Z.of_nat (length (nonEmptyWords chunk)) <= wordsPerChunk) chunks /\
  exists slices : list (list string),
    Z.of_nat (length slices) = 3 /\
    concat slices = words /\
    Forall (fun sl => Z.of_nat (length sl) <= wordsPerChunk) slices /\
    chunks = filter (fun chunk => 0 < Z.of_nat (String.length (trim chunk)))
                    (map (join " ") slices).
Proof.
  apply (splitTranscriptIntoChunks_partition (transcript Samples.longVideo) 3).
  - vm_compute. discriminate.
  - lia.
Defined.

Lemma splitTranscriptIntoChunks_keeps_words_witness :
  concat (map nonEmptyWords
            (splitTranscriptIntoChunks (transcript Samples.longVideo) 3)) =
  nonEmptyWords (transcript Samples.longVideo).
Proof.
  apply (splitTranscriptIntoChunks_keeps_words (transcript Samples.longVideo) 3). lia.
Defined.

End SplitterExtras.

(** ** The planner: steps, estimate and quotas outside the usual range *)

Module PlannerExtras.

Import Server.

(** X6.  [calculateOptimalChunks] gives between 1 and 6 chunks, never
    fewer for a longer transcript, one chunk exactly below 5,000
    characters and six exactly from 80,000 characters on. *)
Theorem calculateOptimalChunks_steps (a b : Z) :
  1 <= calculateOptimalChunks a <= 6 /\
  (a <= b -> calculateOptimalChunks a <= calculateOptimalChunks b) /\
  (calculateOptimalChunks a = 1 <-> a < 5000) /\
  (calculateOptimalChunks a = 6 <-> 80000 <= a).
Proof.
  unfold calculateOptimalChunks. repeat split; case_ltb; lia.
Qed.

(** X7.  [estimateProcessingTime]: chunked processing is never
    estimated slower than sequential processing, the estimate never
    drops for a longer transcript, it is 15 seconds exactly when the
    planner asks for a single chunk, and from 5,000 characters on the
    sequential estimate is twice the chunked one. *)
Theorem estimateProcessingTime_chunking (len len' : Z) (useChunking : bool) :
  estimateProcessingTime len true <= estimateProcessingTime len false /\
  (len <= len' ->
     estimateProcessingTime len useChunking <= estimateProcessingTime len' useChunking) /\
  (estimateProcessingTime len useChunking = 15 <-> calculateOptimalChunks len = 1) /\
  (5000 <= len ->
     estimateProcessingTime len false = 2 * estimateProcessingTime len true).
Proof.
  unfold estimateProcessingTime, calculateOptimalChunks.
  repeat split; destruct useChunking; case_ltb; lia.
Qed.

(** X8.  [distributeQuestionsAcrossChunks] outside its usual range: a
    chunk count of zero or less gives the empty list; a negative total
    that is a safe integer gives every chunk the same quota
    [floor(total / numChunks)] (the remainder of a negative total is
    never positive, so no chunk gets the extra one), and the quotas add
    up to the total only when [numChunks] divides it. *)
Theorem distributeQuestionsAcrossChunks_degenerate (totalQuestions numChunks : Z) :
  (numChunks <= 0 -> distributeQuestionsAcrossChunks totalQuestions numChunks = []) /\
  (- MAX_SAFE_INTEGER <= totalQuestions < 0 -> 1 <= numChunks <= MAX_ARRAY_LENGTH ->
     distributeQuestionsAcrossChunks totalQuestions numChunks =
       replicate (Z.to_nat numChunks) (totalQuestions / numChunks) /\
     sumZ (distributeQuestionsAcrossChunks totalQuestions numChunks) =
       numChunks * (totalQuestions / numChunks) /\
     (sumZ (distributeQuestionsAcrossChunks totalQuestions numChunks) = totalQuestions
        <-> totalQuestions mod numChunks = 0)).
Proof.
  split.
  - intros Hn. unfold distributeQuestionsAcrossChunks. by rewrite seqZ_nil.
  - intros [_ Ht] [Hn _].
    assert (Heq : distributeQuestionsAcrossChunks totalQuestions numChunks =
                  replicate (Z.to_nat numChunks) (totalQuestions / numChunks)).
    { unfold distributeQuestionsAcrossChunks.
      pose proof (Z.rem_bound_pos_neg totalQuestions numChunks ltac:(lia) ltac:(lia)) as Hr.
      apply list_eq. intros i.
      destruct (decide (Z.of_nat i < numChunks)) as [Hi|Hi].
      - rewrite list_lookup_fmap, lookup_seqZ_lt by lia.
        rewrite lookup_replicate_2 by lia. cbn [fmap option_fmap option_map].
        destruct (Z.ltb_spec (0 + Z.of_nat i) (Z.rem totalQuestions numChunks)); [lia|].
        by rewrite Z.add_0_r.
      - rewrite list_lookup_fmap, lookup_seqZ_ge by lia.
        symmetry. apply lookup_replicate_None. lia. }
    assert (Hsum : forall (n : nat) x, sumZ (replicate n x) = Z.of_nat n * x).
    { induction n as [|n IH]; intros x; [done|].
      cbn [replicate sumZ foldr]. fold (sumZ (replicate n x)). rewrite IH. lia. }
    split; [exact Heq|]. rewrite Heq, Hsum.
    split; [lia|].
    pose proof (Z.div_mod totalQuestions numChunks ltac:(lia)).
    pose proof (Z.mod_pos_bound totalQuestions numChunks ltac:(lia)).
    lia.
Qed.

(** X9.  The quotas never increase along the chunks and differ by at
    most one: the extra questions go to the first chunks.  This holds
    for every total that is a safe integer, negative ones included, and
    every chunk count up to [MAX_ARRAY_LENGTH]. *)
Theorem distributeQuestionsAcrossChunks_front_loaded
    (totalQuestions numChunks : Z) (i j : nat) (x y : Z) :
  isSafeInteger totalQuestions ->
  numChunks <= MAX_ARRAY_LENGTH ->
  (i <= j)%nat ->
  distributeQuestionsAcrossChunks totalQuestions numChunks !! i = Some x ->
  distributeQuestionsAcrossChunks totalQuestions numChunks !! j = Some y ->
  y <= x <= y + 1.
Proof.
  unfold distributeQuestionsAcrossChunks. intros _ _ Hij.
  rewrite !list_lookup_fmap.
  destruct (seqZ 0 numChunks !! i) as [a|] eqn:Ha; [|done].
  destruct (seqZ 0 numChunks !! j) as [b|] eqn:Hb; [|done].
  apply lookup_seqZ in Ha as [-> _]. apply lookup_seqZ in Hb as [-> _].
  cbn [fmap option_fmap option_map]. intros [= <-] [= <-]. case_ltb; lia.
Qed.
Lemma distributeQuestionsAcrossChunks_front_loaded_witness :
  distributeQuestionsAcrossChunks 25 6 !! 0%nat = Some 5 /\
  distributeQuestionsAcrossChunks 25 6 !! 5%nat = Some 4 /\
  4 <= 5 <= 4 + 1.
Proof.
  split; [reflexivity|]. split; [reflexivity|].
  apply (distributeQuestionsAcrossChunks_front_loaded 25 6 0 5 5 4).
  - vm_compute. split; discriminate.
  - vm_compute. discriminate.
  - lia.
  - reflexivity.
  - reflexivity.
Defined.

End PlannerExtras.
(** ** The transcript cache behind [getVideoInfo] *)

Module CacheExtras.

Import Server.

Lemma substring0_length n s :
  String.length (substring0 n s) = Nat.min n (String.length s).
Proof.
  revert s. induction n as [|n IH]; intros [|c s]; simpl; try done.
  by rewrite IH.
Qed.

Lemma fetched_text_bound (text : string) :
  Z.of_nat (String.length
    (if MAX_TRANSCRIPT_LENGTH <? Z.of_nat (String.length text)
     then substring0 (Z.to_nat MAX_TRANSCRIPT_LENGTH) text else text))
  <= MAX_TRANSCRIPT_LENGTH.
Proof.
  destruct (Z.ltb_spec MAX_TRANSCRIPT_LENGTH (Z.of_nat (String.length text))); [|lia].
  rewrite substring0_length. unfold MAX_TRANSCRIPT_LENGTH in *. lia.
Qed.

(** X10.  Store, then look up: when a video that is not cached is
    fetched with caching on, is within the duration limit and has a
    transcript, the next cached lookup of the same identifier returns,
    without asking the origin (whatever the origin would answer then)
    and marked [fromCache], the same identifier, title, description,
    channel title, duration, duration in minutes and transcript; and
    the stored document then counts two accesses, was cached at the
    time of the fetch and last accessed at the time of the lookup.
    Nothing is said of [publishedAt], which comes back as the stored
    date. *)
Theorem getVideoInfo_store_then_lookup
    (fetchOrigin fetchOrigin' : string -> result (option OriginVideo))
    (now later : Z) (db : TranscriptCache.Collection) (key : string) (video : OriginVideo) :
  db !! key = None ->
  fetchOrigin key = Ok (Some video) ->
  hours video * 60 + minutes video <= MAX_VIDEO_DURATION_MINUTES ->
  transcriptText video <> EmptyString ->
  exists info info' db1 db2 doc,
    getVideoInfo fetchOrigin now db key true = (Some info, db1) /\
    fromCache info = false /\
    getVideoInfo fetchOrigin' later db1 key true = (Some info', db2) /\
    fromCache info' = true /\
    id info' = id info /\
    title info' = title info /\
    description info' = description info /\
    channelTitle info' = channelTitle info /\
    duration info' = duration info /\
    durationMinutes info' = durationMinutes info /\
    transcript info' = transcript info /\
    db2 !! key = Some doc /\
    TranscriptCache.accessCount doc = 2 /\
    TranscriptCache.cachedAt doc = now /\
    TranscriptCache.lastAccessed doc = later.
Proof.
  intros Hmiss Hfetch Hduration Htext.
  unfold getVideoInfo at 1. unfold cacheCheck, TranscriptCache.findOne. rewrite Hmiss.
  unfold fetchAndCache. rewrite Hfetch.
  destruct (Z.ltb_spec MAX_VIDEO_DURATION_MINUTES (hours video * 60 + minutes video));
    [lia|].
  set (text := if MAX_TRANSCRIPT_LENGTH <? Z.of_nat (String.length (transcriptText video))
               then substring0 (Z.to_nat MAX_TRANSCRIPT_LENGTH) (transcriptText video)
               else transcriptText video).
  assert (Hpos : 0 < Z.of_nat (String.length text)).
  { unfold text.
    destruct (Z.ltb_spec MAX_TRANSCRIPT_LENGTH
                (Z.of_nat (String.length (transcriptText video)))) as [Hlong|Hshort].
    - rewrite substring0_length. unfold MAX_TRANSCRIPT_LENGTH in *. lia.
    - destruct (transcriptText video); [done|]. cbn [String.length]. lia. }
  clearbody text.
  destruct (Z.ltb_spec 0 (Z.of_nat (String.length text))); [|lia]. cbn [andb].
  do 5 eexists. split; [reflexivity|]. split; [reflexivity|].
  unfold getVideoInfo, cacheCheck, TranscriptCache.findOne,
    TranscriptCache.findOneAndUpdate.
  rewrite Hmiss, lookup_insert_eq. cbn.
  split; [reflexivity|]. do 8 (split; [reflexivity|]).
  rewrite lookup_insert_eq. by repeat split.
Qed.

(** X11.  With [useCache = false] the collection is neither read nor
    written: it is left as it was, the answer does not depend on it,
    and an answer is never marked [fromCache]. *)
Theorem getVideoInfo_without_cache
    (fetchOrigin : string -> result (option OriginVideo)) (now : Z)
    (db db' : TranscriptCache.Collection) (key : string) :
  snd (getVideoInfo fetchOrigin now db key false) = db /\
  fst (getVideoInfo fetchOrigin now db key false) =
    fst (getVideoInfo fetchOrigin now db' key false) /\
  (forall info, fst (getVideoInfo fetchOrigin now db key false) = Some info ->
                fromCache info = false).
Proof.
  unfold getVideoInfo, fetchAndCache.
  destruct (fetchOrigin key) as [[video|]|e];
    [|cbn [fst snd]; repeat split; intros info [=]..].
  destruct (MAX_VIDEO_DURATION_MINUTES <? _);
    [cbn [fst snd]; repeat split; intros info [=]|].
  set (text := if MAX_TRANSCRIPT_LENGTH <? _ then _ else _). clearbody text.
  cbn [andb fst snd]. repeat split. intros info [= <-]. reflexivity.
Qed.

(** X12.  With a working store, [getVideoInfo] returns [null] and
    leaves the collection as it is when the cache gives no hit (caching
    is off or the identifier is not cached) and the origin stage fails,
    finds no video, or finds one longer than the duration limit;
    whenever it returns [null] the collection is unchanged; and a
    missing transcript is no reason for [null]: on a miss, a video
    within the limit whose transcript is empty is returned, with the
    empty transcript, and is not cached. *)
Theorem getVideoInfo_null
    (fetchOrigin : string -> result (option OriginVideo)) (now : Z)
    (db : TranscriptCache.Collection) (key : string) (useCache : bool) :
  (useCache = false \/ db !! key = None ->
   match fetchOrigin key with
   | Ok (Some video) => MAX_VIDEO_DURATION_MINUTES < hours video * 60 + minutes video
   | _ => True
   end ->
   getVideoInfo fetchOrigin now db key useCache = (None, db)) /\
  (fst (getVideoInfo fetchOrigin now db key useCache) = None ->
   snd (getVideoInfo fetchOrigin now db key useCache) = db) /\
  (forall video,
      useCache = false \/ db !! key = None ->
      fetchOrigin key = Ok (Some video) ->
      hours video * 60 + minutes video <= MAX_VIDEO_DURATION_MINUTES ->
      transcriptText video = EmptyString ->
      exists info,
        getVideoInfo fetchOrigin now db key useCache = (Some info, db) /\
        id info = key /\
        transcript info = EmptyString /\
        fromCache info = false).
Proof.
  assert (Hmiss :
    useCache = false \/ db !! key = None ->
    getVideoInfo fetchOrigin now db key useCache =
      fetchAndCache fetchOrigin now db key useCache).
  { intros [->|Hnone]; [done|]. unfold getVideoInfo. destruct useCache; [|done].
    unfold cacheCheck, TranscriptCache.findOne. by rewrite Hnone. }
  assert (Hnull : forall cache,
    fst (fetchAndCache fetchOrigin now db key cache) = None ->
    snd (fetchAndCache fetchOrigin now db key cache) = db).
  { intros cache. unfold fetchAndCache.
    destruct (fetchOrigin key) as [[video|]|e]; try done.
    destruct (MAX_VIDEO_DURATION_MINUTES <? _); [done|].
    set (text := if MAX_TRANSCRIPT_LENGTH <? _ then _ else _). clearbody text.
    by destruct (cache && _). }
  split; [|split].
  - intros Hno Horigin. rewrite (Hmiss Hno). unfold fetchAndCache.
    destruct (fetchOrigin key) as [[video|]|e]; try done.
    destruct (Z.ltb_spec MAX_VIDEO_DURATION_MINUTES (hours video * 60 + minutes video));
      [done|lia].
  - unfold getVideoInfo. destruct useCache; [|apply Hnull].
    unfold cacheCheck, TranscriptCache.findOne.
    destruct (db !! key); [done|apply Hnull].
  - intros video Hno Horigin Hduration Htext. rewrite (Hmiss Hno).
    unfold fetchAndCache. rewrite Horigin.
    destruct (Z.ltb_spec MAX_VIDEO_DURATION_MINUTES (hours video * 60 + minutes video));
      [lia|].
    rewrite Htext.
    change (MAX_TRANSCRIPT_LENGTH <? Z.of_nat (String.length EmptyString)) with false.
    cbv iota. change (0 <? Z.of_nat (String.length EmptyString)) with false.
    rewrite andb_false_r. eexists. by repeat split.
Qed.

Lemma cacheSound_keyedById db : cacheSound db -> keyedById db.
Proof. intros H key doc Hdoc. by destruct (H key doc Hdoc). Qed.

(** X13.  [getVideoInfo] keeps the collection sound: every document
    stays filed under its own identifier with a transcript that is not
    empty and not longer than [MAX_TRANSCRIPT_LENGTH], a
    [transcriptLength] equal to its length and a positive access count;
    and from a sound collection every returned transcript is within the
    limit, and a cached one is not empty. *)
Theorem getVideoInfo_keeps_cache_sound
    (fetchOrigin : string -> result (option OriginVideo)) (now : Z)
    (db : TranscriptCache.Collection) (key : string) (useCache : bool) :
  cacheSound db ->
  cacheSound (snd (getVideoInfo fetchOrigin now db key useCache)) /\
  (forall info,
      fst (getVideoInfo fetchOrigin now db key useCache) = Some info ->
      Z.of_nat (String.length (transcript info)) <= MAX_TRANSCRIPT_LENGTH /\
      (fromCache info = true -> transcript info <> EmptyString)).
Proof.
  intros Hdb.
  assert (Hfetch : forall cache,
    cacheSound (snd (fetchAndCache fetchOrigin now db key cache)) /\
    (forall info,
        fst (fetchAndCache fetchOrigin now db key cache) = Some info ->
        Z.of_nat (String.length (transcript info)) <= MAX_TRANSCRIPT_LENGTH /\
        (fromCache info = true -> transcript info <> EmptyString))).
  { intros cache. unfold fetchAndCache.
    destruct (fetchOrigin key) as [[video|]|e];
      [|cbn [fst snd]; split; [exact Hdb|intros info [=]]..].
    destruct (MAX_VIDEO_DURATION_MINUTES <? _);
      [cbn [fst snd]; split; [exact Hdb|intros info [=]]|].
    pose proof (fetched_text_bound (transcriptText video)) as Hbound.
    set (text := if MAX_TRANSCRIPT_LENGTH <? _ then _ else _) in *. clearbody text.
    destruct (Z.ltb_spec 0 (Z.of_nat (String.length text))) as [Hpos|Hzero];
      destruct cache; cbn [andb fst snd];
      (split; [|intros info [= <-]; cbn; split; [exact Hbound|intros [=]]]);
      try exact Hdb.
    unfold TranscriptCache.findOneAndUpdate.
    apply map_Forall_insert_2; [|exact Hdb]. cbn.
    repeat split; try lia.
    destruct (db !! key) as [old|] eqn:Hold; [|lia].
    by destruct (Hdb key old Hold) as (_ & _ & _ & ?). }
  unfold getVideoInfo. destruct useCache; [|apply Hfetch].
  unfold cacheCheck, TranscriptCache.findOne.
  destruct (db !! key) as [doc|] eqn:Hdoc; [|apply Hfetch].
  destruct (Hdb key doc Hdoc) as (Hid & Hlen & Htl & Hcount).
  cbn [fst snd]. split.
  - unfold TranscriptCache.save. apply map_Forall_insert_2; [|exact Hdb].
    cbn. repeat split; lia || done.
  - intros info [= <-]. cbn. split; [lia|]. intros _ Heq. rewrite Heq in Hlen.
    cbn in Hlen. lia.
Qed.

Lemma lookup_hit_step fetchOrigin now db key doc :
  keyedById db ->
  db !! key = Some doc ->
  snd (getVideoInfo fetchOrigin now db key true) =
    <[key := TranscriptCache.updateAccess now doc]> db.
Proof.
  intros Hkeyed Hdoc. unfold getVideoInfo, cacheCheck, TranscriptCache.findOne.
  rewrite Hdoc. cbn [fst snd]. unfold TranscriptCache.save.
  cbn [TranscriptCache.videoId TranscriptCache.updateAccess].
  by rewrite (Hkeyed key doc Hdoc).
Qed.

(** X14.  A run of cached lookups of a cached video adds one access
    per lookup, leaves [lastAccessed] at the time of the last lookup,
    never changes [cachedAt] or the transcript, and leaves every other
    document alone. *)
Theorem repeated_lookups_count
    (fetchOrigin : string -> result (option OriginVideo)) (times : list Z)
    (db : TranscriptCache.Collection) (key : string) (doc : TranscriptCache.Doc) :
  keyedById db ->
  db !! key = Some doc ->
  exists doc',
    lookupsAt fetchOrigin times db key !! key = Some doc' /\
    TranscriptCache.accessCount doc' =
      TranscriptCache.accessCount doc + Z.of_nat (length times) /\
    TranscriptCache.lastAccessed doc' = default (TranscriptCache.lastAccessed doc) (last times) /\
    TranscriptCache.cachedAt doc' = TranscriptCache.cachedAt doc /\
    TranscriptCache.transcript doc' = TranscriptCache.transcript doc /\
    (forall other, other <> key ->
       lookupsAt fetchOrigin times db key !! other = db !! other).
Proof.
  revert db doc. induction times as [|now later IH]; intros db doc Hkeyed Hdoc.
  - exists doc. cbn. rewrite Z.add_0_r. by repeat split.
  - cbn [lookupsAt]. rewrite (lookup_hit_step fetchOrigin now db key doc) by done.
    destruct (IH (<[key := TranscriptCache.updateAccess now doc]> db)
                 (TranscriptCache.updateAccess now doc)) as (doc' & Hget & Hc & Hl & Hca & Ht & Ho).
    + apply map_Forall_insert_2; [|done]. cbn. by apply (Hkeyed key doc).
    + apply lookup_insert_eq.
    + exists doc'. split; [exact Hget|]. cbn in Hc, Hl, Hca, Ht.
      split; [rewrite Hc; cbn [length]; lia|].
      split; [rewrite Hl, last_cons; by destruct (last later)|].
      split; [done|]. split; [done|].
      intros other Hne. rewrite Ho by done. by rewrite lookup_insert_ne.
Qed.
Lemma getVideoInfo_store_then_lookup_witness :
  exists info info' db1 db2 doc,
    getVideoInfo Samples.sampleOrigin 1000 ∅ "abc123" true = (Some info, db1) /\
    fromCache info = false /\
    getVideoInfo Samples.noOrigin 2000 db1 "abc123" true = (Some info', db2) /\
    fromCache info' = true /\
    id info' = id info /\
    title info' = title info /\
    description info' = description info /\
    channelTitle info' = channelTitle info /\
    duration info' = duration info /\
    durationMinutes info' = durationMinutes info /\
    transcript info' = transcript info /\
    db2 !! "abc123" = Some doc /\
    TranscriptCache.accessCount doc = 2 /\
    TranscriptCache.cachedAt doc = 1000 /\
    TranscriptCache.lastAccessed doc = 2000.
Proof.
  eapply (getVideoInfo_store_then_lookup Samples.sampleOrigin Samples.noOrigin
            1000 2000 ∅ "abc123").
  - reflexivity.
  - reflexivity.
  - vm_compute. discriminate.
  - discriminate.
Defined.

Lemma getVideoInfo_keeps_cache_sound_witness :
  cacheSound (snd (getVideoInfo Samples.noOrigin 2000 Samples.sampleDb "abc123" true)) /\
  (forall info,
      fst (getVideoInfo Samples.noOrigin 2000 Samples.sampleDb "abc123" true) = Some info ->
      Z.of_nat (String.length (transcript info)) <= MAX_TRANSCRIPT_LENGTH /\
      (fromCache info = true -> transcript info <> EmptyString)).
Proof.
  apply (getVideoInfo_keeps_cache_sound Samples.noOrigin 2000 Samples.sampleDb "abc123" true).
  unfold cacheSound. apply (bool_decide_unpack _). vm_compute. exact I.
Defined.

Lemma repeated_lookups_count_witness :
  exists doc',
    lookupsAt Samples.noOrigin [2000; 3000; 4000] Samples.sampleDb "abc123" !! "abc123"
      = Some doc' /\
    TranscriptCache.accessCount doc' =
      TranscriptCache.accessCount Samples.cachedDoc + Z.of_nat (length [2000; 3000; 4000]) /\
    TranscriptCache.lastAccessed doc' =
      default (TranscriptCache.lastAccessed Samples.cachedDoc) (last [2000; 3000; 4000]) /\
    TranscriptCache.cachedAt doc' = TranscriptCache.cachedAt Samples.cachedDoc /\
    TranscriptCache.transcript doc' = TranscriptCache.transcript Samples.cachedDoc /\
    (forall other, other <> "abc123" ->
       lookupsAt Samples.noOrigin [2000; 3000; 4000] Samples.sampleDb "abc123" !! other
         = Samples.sampleDb !! other).
Proof.
  apply (repeated_lookups_count Samples.noOrigin [2000; 3000; 4000] Samples.sampleDb
           "abc123" Samples.cachedDoc).
  - unfold keyedById. apply (bool_decide_unpack _). vm_compute. exact I.
  - reflexivity.
Defined.

End CacheExtras.

(** ** The chunk generator: what it returns *)

Module GeneratorExtras.

Import Server GeneratorProps.

Lemma trimEnd_trimEnd s : trimEnd (trimEnd s) = trimEnd s.
Proof.
  induction s as [|c s IH]; [done|]. simpl.
  destruct (trimEnd s) as [|d kept] eqn:Hk.
  - destruct (isWhitespace c) eqn:Hc; [done|]. simpl. by rewrite Hc.
  - simpl. simpl in IH. destruct (match trimEnd kept with
                                   | EmptyString => _ | String _ _ => _ end) eqn:Hm.
    + by destruct (trimEnd kept); destruct (isWhitespace d).
    + by rewrite IH.
Qed.

Lemma trimEnd_head c s :
  isWhitespace c = false -> exists rest, trimEnd (String c s) = String c rest.
Proof. intros Hc. simpl. destruct (trimEnd s); [rewrite Hc|]; eauto. Qed.

Lemma trimStart_head s :
  trimStart s = EmptyString \/
  exists c rest, trimStart s = String c rest /\ isWhitespace c = false.
Proof.
  unfold trimStart. induction s as [|c s IH]; [by left|]. simpl.
  destruct (isWhitespace c) eqn:Hc; [done|]. right. eauto.
Qed.

Lemma trim_trim s : trim (trim s) = trim s.
Proof.
  unfold trim. destruct (trimStart_head s) as [->|(c & rest & -> & Hc)]; [done|].
  destruct (trimEnd_head c rest Hc) as [rest' Heq].
  rewrite Heq. unfold trimStart. cbn [dropWhile]. rewrite Hc.
  rewrite <- Heq. apply trimEnd_trimEnd.
Qed.

Lemma cleanOptions_shape idx l cleaned :
  mapM_from (fun _ => cleanOption) idx l = Ok cleaned ->
  exists raw opts,
    l = map JStr raw /\ cleaned = map JStr opts /\
    length opts = length raw /\ Forall (fun s => trim s = s) opts.
Proof.
  revert idx cleaned. induction l as [|x l IH]; intros idx cleaned; simpl.
  - intros [= <-]. by exists [], [].
  - destruct x; simpl; try done.
    destruct (mapM_from _ (idx + 1) l) as [rest|] eqn:Hrest; simpl; [|done].
    intros [= <-]. destruct (IH _ _ Hrest) as (raw & opts & -> & -> & Hlen & Htrim).
    exists (s :: raw), (trim (stripOptionLabel s) :: opts).
    repeat split; simpl; [by rewrite Hlen|]. constructor; [apply trim_trim|done].
Qed.

Lemma normalizeQuestion_Ok idx q r :
  normalizeQuestion idx q = Ok r ->
  wellShaped q /\
  exists o opts topic,
    r = JObj o /\ dom o = quizKeys /\
    o !! "questionId" = Some (JNum (idx + 1)) /\
    o !! "options" = Some (JArr (map JStr opts)) /\
    Forall (fun s => trim s = s) opts /\
    o !! "topic" = Some topic /\ truthy topic = true.
Proof.
  unfold normalizeQuestion.
  destruct (getProp q "correct_answer") as [snake|] eqn:Hsnake; simpl; [|done].
  destruct (if truthy snake then Ok snake else getProp q "correctAnswer")
    as [answer|] eqn:Hanswer; simpl; [|done].
  destruct (getProp q "options") as [options|] eqn:Hoptions; simpl; [|done].
  destruct (asArray options) as [optionList|] eqn:Harr; simpl; [|done].
  destruct (mapM_from _ 0 optionList) as [cleaned|] eqn:Hclean; simpl; [|done].
  destruct (getProp q "question") as [question|] eqn:Hq; simpl; [|done].
  destruct (getProp q "topic") as [topic|] eqn:Htopic; simpl; [|done].
  intros [= <-].
  destruct (cleanOptions_shape _ _ _ Hclean) as (raw & opts & -> & -> & Hlen & Htrim).
  destruct options; try done. simpl in Harr. injection Harr as ->.
  split.
  - destruct q; try done. simpl in Hoptions.
    exists o, raw. split; [done|].
    destruct (o !! "options") as [v|]; simpl in Hoptions; [|done]. congruence.
  - eexists _, opts, (orElse topic (JStr "General")). split; [reflexivity|].
    split; [|split; [|split; [|split; [|split]]]].
    + rewrite !dom_insert_L, dom_empty_L. unfold quizKeys. set_solver.
    + by rewrite lookup_insert_eq.
    + rewrite lookup_insert_ne, lookup_insert_ne, lookup_insert_eq; done.
    + done.
    + do 4 (rewrite lookup_insert_ne by done). by rewrite lookup_insert_eq.
    + unfold orElse. by destruct (truthy topic) eqn:Ht.
Qed.

Lemma normalizeQuestions_Ok idx items out :
  mapM_from normalizeQuestion idx items = Ok out ->
  Forall wellShaped items /\
  length out = length items /\
  forall (k : nat) e,
    out !! k = Some e ->
    exists o opts topic,
      e = JObj o /\ dom o = quizKeys /\
      o !! "questionId" = Some (JNum (idx + Z.of_nat k + 1)) /\
      o !! "options" = Some (JArr (map JStr opts)) /\
      Forall (fun s => trim s = s) opts /\
      o !! "topic" = Some topic /\ truthy topic = true.
Proof.
  revert idx out. induction items as [|q items IH]; intros idx out; simpl.
  - intros [= <-]. repeat split; [constructor|]. intros k e. by rewrite lookup_nil.
  - destruct (normalizeQuestion idx q) as [r|] eqn:Hr; simpl; [|done].
    destruct (mapM_from normalizeQuestion (idx + 1) items) as [rest|] eqn:Hrest;
      simpl; [|done].
    intros [= <-]. destruct (normalizeQuestion_Ok _ _ _ Hr) as [Hshape Hobj].
    destruct (IH _ _ Hrest) as (Hshapes & Hlen & Hall).
    split; [by constructor|]. split; [simpl; by rewrite Hlen|].
    intros [|k] e; simpl.
    + intros [= <-]. by rewrite Z.add_0_r.
    + intros He. destruct (Hall k e He) as (o & opts & topic & H1 & H2 & H3 & H4).
      exists o, opts, topic. split; [done|]. split; [done|].
      split; [|done]. rewrite H3. do 2 f_equal. lia.
Qed.

(** X15.  Whatever the model answers, every entry that
    [generateQuizFromChunk] returns is an object with exactly the
    properties [questionId], [question], [options], [correct_answer]
    and [topic]; its [questionId] is its 1-based position, its options
    are strings that are already trimmed, and its topic is never
    empty. *)
Theorem generateQuizFromChunk_shape
    (generateContent : Prompt -> result string) (JSON_parse : string -> result JSValue)
    (chunkText : string) (numQuestions : option Z) (difficulty videoTitle : string)
    (chunkIndex : Z) (out : list JSValue) :
  generateQuizFromChunk generateContent JSON_parse chunkText numQuestions
    difficulty videoTitle chunkIndex = Ok out ->
  forall (k : nat) e,
    out !! k = Some e ->
    exists o opts topic,
      e = JObj o /\ dom o = quizKeys /\
      o !! "questionId" = Some (JNum (Z.of_nat k + 1)) /\
      o !! "options" = Some (JArr (map JStr opts)) /\
      Forall (fun s => trim s = s) opts /\
      o !! "topic" = Some topic /\ truthy topic = true.
Proof.
  unfold generateQuizFromChunk.
  destruct (generateContent _) as [text|]; simpl; [|by intros [= <-] ? ?; rewrite lookup_nil].
  destruct (parseQuizData JSON_parse text) as [quizData|]; simpl;
    [|by intros [= <-] ? ?; rewrite lookup_nil].
  destruct (asArray quizData) as [items|]; simpl;
    [|by intros [= <-] ? ?; rewrite lookup_nil].
  destruct (mapM_from normalizeQuestion 0 items) as [qs|] eqn:Hqs; simpl;
    [|by intros [= <-] ? ?; rewrite lookup_nil].
  intros [= <-]. destruct (normalizeQuestions_Ok _ _ _ Hqs) as (_ & _ & Hall).
  intros k e He. destruct (Hall k e He) as (o & opts & topic & H1 & H2 & H3 & H4).
  exists o, opts, topic. split; [done|]. split; [done|]. split; [|done].
  rewrite H3. do 2 f_equal.
Qed.

(** X16.  All or nothing: when one element of the parsed array is not
    an object with an array of option strings, the normalizer throws
    inside the [try] block and the whole chunk yields the empty list,
    the well-formed questions beside it included. *)
Theorem generateQuizFromChunk_all_or_nothing
    (generateContent : Prompt -> result string) (JSON_parse : string -> result JSValue)
    (chunkText : string) (numQuestions : option Z) (difficulty videoTitle : string)
    (chunkIndex : Z) (text : string) (items : list JSValue) :
  generateContent (buildPrompt chunkText numQuestions difficulty videoTitle chunkIndex)
    = Ok text ->
  parseQuizData JSON_parse text = Ok (JArr items) ->
  (exists q, q ∈ items /\ ~ wellShaped q) ->
  generateQuizFromChunk generateContent JSON_parse chunkText numQuestions
    difficulty videoTitle chunkIndex = Ok [].
Proof.
  intros Hgen Hparse (q & Hq & Hbad). unfold generateQuizFromChunk.
  rewrite Hgen. cbn [bind]. rewrite Hparse. cbn [bind asArray].
  destruct (mapM_from normalizeQuestion 0 items) as [qs|] eqn:Hqs; [|done].
  destruct (normalizeQuestions_Ok _ _ _ Hqs) as (Hshape & _).
  rewrite Forall_forall in Hshape. by destruct (Hbad (Hshape q Hq)).
Qed.
Lemma generateQuizFromChunk_shape_witness :
  exists e,
    Samples.sampleQuiz !! 0%nat = Some e /\
    exists o opts topic,
      e = JObj o /\ dom o = quizKeys /\
      o !! "questionId" = Some (JNum (Z.of_nat 0 + 1)) /\
      o !! "options" = Some (JArr (map JStr opts)) /\
      Forall (fun s => trim s = s) opts /\
      o !! "topic" = Some topic /\ truthy topic = true.
Proof.
  eexists. split; [vm_compute; reflexivity|].
  eapply (generateQuizFromChunk_shape Samples.sampleModel Samples.sampleParse
            "Variables name values." (Some 2) "easy" "Intro to programming" 0
            Samples.sampleQuiz).
  - vm_compute. reflexivity.
  - vm_compute. reflexivity.
Defined.

Lemma generateQuizFromChunk_all_or_nothing_witness :
  generateQuizFromChunk Samples.mixedModel Samples.mixedParse
    "Loops repeat work." (Some 2) "easy" "Intro to programming" 0 = Ok [].
Proof.
  apply (generateQuizFromChunk_all_or_nothing Samples.mixedModel Samples.mixedParse
           "Loops repeat work." (Some 2) "easy" "Intro to programming" 0
           Samples.mixedRaw Samples.mixedItems).
  - reflexivity.
  - vm_compute. reflexivity.
  - exists (JObj (<["question" := JStr "Broken"]> ∅)). split.
    + unfold Samples.mixedItems. set_solver.
    + intros (o & opts & [= <-] & Hoptions). vm_compute in Hoptions. discriminate.
Defined.

End GeneratorExtras.

(** ** The bracket fallback and the orchestrator *)

Module QuizExtras.

Import Server GeneratorProps MergerProps.

Lemma upToLastClose_spec rest :
  match upToLastClose rest with
  | Some kept =>
      exists inner post,
        rest = inner +:+ "]" +:+ post /\ kept = inner +:+ "]" /\ lacks 93 post = true
  | None => lacks 93 rest = true
  end.
Proof.
  induction rest as [|c rest IH]; [done|]. cbn [upToLastClose].
  destruct (upToLastClose rest) as [kept|].
  - destruct IH as (inner & post & -> & -> & Hpost).
    exists (String c inner), post. split; [reflexivity|]. split; [reflexivity|done].
  - destruct (Nat.eqb_spec (nat_of_ascii c) 93) as [Hc|Hc].
    + assert (c = "]"%char) as ->.
      { rewrite <- (ascii_nat_embedding c), Hc. reflexivity. }
      exists EmptyString, rest. split; [reflexivity|]. split; [reflexivity|exact IH].
    + unfold lacks. cbn [allChars]. apply andb_true_iff. split; [|exact IH].
      apply negb_true_iff. by apply Nat.eqb_neq.
Qed.

(** X17.  The fallback pattern of [parseQuizData] picks the text from the
    first opening bracket to the last closing bracket after it: when it
    matches, nothing before the match has an opening bracket and
    nothing after it has a closing one; it fails only when the text has
    no opening bracket, or no closing bracket after the first opening
    one. *)
Theorem matchBracketed_first_to_last (text : string) :
  match matchBracketed text with
  | Some jsonMatch =>
      exists pre inner post,
        text = pre +:+ "[" +:+ inner +:+ "]" +:+ post /\
        jsonMatch = "[" +:+ inner +:+ "]" /\
        lacks 91 pre = true /\ lacks 93 post = true
  | None =>
      lacks 91 text = true \/
      exists pre rest,
        text = pre +:+ "[" +:+ rest /\ lacks 91 pre = true /\ lacks 93 rest = true
  end.
Proof.
  induction text as [|c text IH]; [by left|]. cbn [matchBracketed].
  destruct (Nat.eqb_spec (nat_of_ascii c) 91) as [Hc|Hc].
  - assert (c = "["%char) as ->.
    { rewrite <- (ascii_nat_embedding c), Hc. reflexivity. }
    pose proof (upToLastClose_spec text) as Hrest.
    destruct (upToLastClose text) as [kept|]; cbn [option_map].
    + destruct Hrest as (inner & post & -> & -> & Hpost).
      exists EmptyString, inner, post.
      split; [reflexivity|]. split; [reflexivity|]. split; [reflexivity|done].
    + right. exists EmptyString, text. split; [reflexivity|]. split; [reflexivity|done].
  - assert (Hlack : negb (nat_of_ascii c =? 91)%nat = true).
    { apply negb_true_iff. by apply Nat.eqb_neq. }
    destruct (matchBracketed text) as [m|].
    + destruct IH as (pre & inner & post & -> & -> & Hpre & Hpost).
      exists (String c pre), inner, post.
      split; [reflexivity|]. split; [reflexivity|]. split; [|done].
      unfold lacks. cbn [allChars]. by rewrite Hlack.
    + destruct IH as [Hnone|(pre & rest & -> & Hpre & Hrest)].
      * left. unfold lacks. cbn [allChars]. by rewrite Hlack.
      * right. exists (String c pre), rest.
        split; [reflexivity|]. split; [|done].
        unfold lacks. cbn [allChars]. by rewrite Hlack.
Qed.

Section Quiz.
Context (generateContent : Prompt -> result string)
        (JSON_parse : string -> result JSValue).

Lemma generateQuiz_short videoInfo numQuestions difficulty :
  Z.of_nat (String.length (transcript videoInfo)) < 5000 ->
  generateQuiz generateContent JSON_parse videoInfo numQuestions difficulty =
  generateQuizFromChunk generateContent JSON_parse (transcript videoInfo)
    (Some numQuestions) difficulty (title videoInfo) 0.
Proof.
  intros Hshort. unfold generateQuiz.
  by rewrite PlannerProps.calculateOptimalChunks_short.
Qed.

Lemma generateQuiz_long videoInfo numQuestions difficulty :
  5000 <= Z.of_nat (String.length (transcript videoInfo)) ->
  let chunks := splitTranscriptIntoChunks (transcript videoInfo)
                  (calculateOptimalChunks (Z.of_nat (String.length (transcript videoInfo)))) in
  exists chunkQuizzes,
    generateChunks generateContent JSON_parse chunks
      (distributeQuestionsAcrossChunks numQuestions (Z.of_nat (length chunks)))
      difficulty (title videoInfo) 0 = Ok chunkQuizzes /\
    generateQuiz generateContent JSON_parse videoInfo numQuestions difficulty =
      mergeAndTrim chunkQuizzes numQuestions.
Proof.
  intros Hlong chunks.
  destruct (generateChunks_total generateContent JSON_parse chunks
              (distributeQuestionsAcrossChunks numQuestions (Z.of_nat (length chunks)))
              difficulty (title videoInfo) 0) as (chunkQuizzes & Hgen & _).
  exists chunkQuizzes. split; [done|]. unfold generateQuiz.
  pose proof (PlannerProps.calculateOptimalChunks_long _ Hlong) as Hopt.
  destruct (Z.ltb_spec 1 (calculateOptimalChunks
                            (Z.of_nat (String.length (transcript videoInfo))))); [|lia].
  cbn [negb]. fold chunks. by rewrite Hgen.
Qed.

Lemma mergeChunkQuizzes_cases chunkQuizzes :
  (wellFormed chunkQuizzes /\ exists out, mergeChunkQuizzes chunkQuizzes = Ok out) \/
  (~ wellFormed chunkQuizzes /\ mergeChunkQuizzes chunkQuizzes = Throw TypeError).
Proof.
  destruct (mergeChunkQuizzes chunkQuizzes) as [out|e] eqn:Hmerge.
  - left. split; [by eapply mergeChunkQuizzes_Ok|eauto].
  - right. split.
    + intros Hwf. by rewrite mergeChunkQuizzes_wf in Hmerge.
    + f_equal. revert Hmerge. unfold mergeChunkQuizzes. rewrite merge_flat.
      destruct (foldM mergeQuestion _ _) as [st|e'] eqn:Hfold; simpl; [done|].
      intros [= <-]. revert Hfold. generalize mergeInit.
      induction (questionsOf chunkQuizzes) as [|q qs IH]; intros st; simpl; [done|].
      unfold mergeQuestion at 1. rewrite normalizedQuestionOf_key.
      destruct (normKey q) as [k|]; simpl; [|by intros [= <-]].
      destruct (decide _); simpl; eauto.
Qed.

(** X18.  [generateQuiz] throws in one case only: the transcript has
    5,000 characters or more and some question that came back from a
    chunk has no string [question] property, which makes the merge
    throw a [TypeError].  On a shorter transcript, and whatever the
    model or the parser do, it returns a list. *)
Theorem generateQuiz_throws_iff videoInfo numQuestions difficulty e :
  generateQuiz generateContent JSON_parse videoInfo numQuestions difficulty = Throw e <->
  e = TypeError /\
  5000 <= Z.of_nat (String.length (transcript videoInfo)) /\
  exists chunkQuizzes question,
    generateChunks generateContent JSON_parse
      (splitTranscriptIntoChunks (transcript videoInfo)
         (calculateOptimalChunks (Z.of_nat (String.length (transcript videoInfo)))))
      (distributeQuestionsAcrossChunks numQuestions
         (Z.of_nat (length (splitTranscriptIntoChunks (transcript videoInfo)
            (calculateOptimalChunks (Z.of_nat (String.length (transcript videoInfo))))))))
      difficulty (title videoInfo) 0 = Ok chunkQuizzes /\
    question ∈ questionsOf chunkQuizzes /\
    questionText question = None.
Proof.
  destruct (Z.ltb_spec (Z.of_nat (String.length (transcript videoInfo))) 5000)
    as [Hshort|Hlong].
  - rewrite generateQuiz_short by done.
    destruct (generateQuizFromChunk_total generateContent JSON_parse (transcript videoInfo)
                (Some numQuestions) difficulty (title videoInfo) 0) as [out ->].
    split; [done|]. intros (_ & ? & _). lia.
  - destruct (generateQuiz_long videoInfo numQuestions difficulty Hlong)
      as (chunkQuizzes & Hgen & ->).
    unfold mergeAndTrim.
    destruct (mergeChunkQuizzes_cases chunkQuizzes) as [[Hwf [out Hout]]|[Hnwf Hthrow]].
    + rewrite Hout. cbn [bind]. split.
      * by destruct (numQuestions <? _).
      * intros (_ & _ & cq & q & Hgen' & Hq & Hnone).
        rewrite Hgen in Hgen'. injection Hgen' as <-.
        unfold wellFormed in Hwf. rewrite Forall_forall in Hwf.
        specialize (Hwf q Hq). rewrite Hnone in Hwf. by destruct Hwf.
    + rewrite Hthrow. cbn [bind]. split.
      * intros [= <-]. split; [done|]. split; [done|].
        unfold wellFormed in Hnwf. apply not_Forall_Exists in Hnwf; [|apply _].
        apply Exists_exists in Hnwf as (q & Hq & Hnone).
        exists chunkQuizzes, q. split; [done|]. split; [done|].
        by apply eq_None_not_Some.
      * by intros (-> & _).
Qed.

(** When every call of the model fails, the quiz is empty. *)
Lemma generateChunks_all_failing chunks quotas difficulty videoTitle start :
  (forall prompt, exists e, generateContent prompt = Throw e) ->
  generateChunks generateContent JSON_parse chunks quotas difficulty videoTitle start =
    Ok (map (fun _ => JArr []) chunks).
Proof.
  intros Hfail. revert start. induction chunks as [|chunk rest IH]; intros start; [done|].
  cbn [generateChunks]. unfold generateQuizFromChunk at 1.
  destruct (Hfail (buildPrompt chunk (quotas !! start) difficulty videoTitle
                     (Z.of_nat start))) as [e ->].
  cbn [bind tryCatch]. rewrite IH. done.
Qed.

Lemma generateQuiz_all_failing videoInfo numQuestions difficulty :
  (forall prompt, exists e, generateContent prompt = Throw e) ->
  generateQuiz generateContent JSON_parse videoInfo numQuestions difficulty = Ok [].
Proof.
  intros Hfail.
  destruct (Z.ltb_spec (Z.of_nat (String.length (transcript videoInfo))) 5000)
    as [Hshort|Hlong].
  - rewrite generateQuiz_short by done. unfold generateQuizFromChunk.
    by destruct (Hfail (buildPrompt (transcript videoInfo) (Some numQuestions) difficulty
                          (title videoInfo) 0)) as [e ->].
  - destruct (generateQuiz_long videoInfo numQuestions difficulty Hlong)
      as (chunkQuizzes & Hgen & ->).
    rewrite generateChunks_all_failing in Hgen by done. injection Hgen as <-.
    unfold mergeAndTrim. rewrite mergeChunkQuizzes_wf.
    + assert (Hflat : forall (l : list string),
                questionsOf (map (fun _ => JArr []) l) = []).
      { induction l; simpl; auto. }
      rewrite Hflat. cbn [accepted renumberFrom bind length].
      destruct (numQuestions <? _); [|done].
      unfold slice0. destruct (numQuestions <? 0); by rewrite take_nil.
    + unfold wellFormed.
      assert (Hflat : forall (l : list string),
                questionsOf (map (fun _ => JArr []) l) = []).
      { induction l; simpl; auto. }
      rewrite Hflat. constructor.
Qed.
End Quiz.
End QuizExtras.
(** ** Video identifiers in URLs *)

Module UrlExtras.

Import Server.

Lemma takeWhile_run p run rest :
  allChars p run = true -> startsWith p rest = false ->
  takeWhile p (run +:+ rest) = run.
Proof.
  induction run as [|c run IH].
  - intros _. destruct rest as [|d rest]; [done|].
    change (EmptyString +:+ String d rest) with (String d rest).
    cbn [takeWhile startsWith]. by intros ->.
  - cbn [allChars]. intros [Hc Hrun]%andb_true_iff Hrest.
    change (String c run +:+ rest) with (String c (run +:+ rest)).
    cbn [takeWhile]. rewrite Hc. f_equal. by apply IH.
Qed.

Lemma takeWhile_allChars p s : allChars p (takeWhile p s) = true.
Proof.
  induction s as [|c s IH]; [done|]. cbn [takeWhile].
  destruct (p c) eqn:Hc; [|done]. cbn [allChars]. by rewrite Hc.
Qed.

Lemma matchForm_id form s captured :
  matchForm form s = Some captured ->
  captured <> EmptyString /\ allChars isIdChar captured = true.
Proof.
  unfold matchForm. destruct (stripPrefix form s) as [rest|]; [|done].
  pose proof (takeWhile_allChars isIdChar rest) as Hall.
  destruct (takeWhile isIdChar rest) as [|c t]; [done|].
  by intros [= <-].
Qed.

Lemma matchForms_id forms s captured :
  matchForms forms s = Some captured ->
  captured <> EmptyString /\ allChars isIdChar captured = true.
Proof.
  induction forms as [|form forms IH]; [done|]. cbn [matchForms].
  destruct (matchForm form s) as [c|] eqn:Hform; [|exact IH].
  intros [= <-]. by eapply matchForm_id.
Qed.

(** X19.  An identifier that [extractVideoId] returns is never empty
    and has none of the characters [&], [?], [#] and line feed. *)
Theorem extractVideoId_clean (url videoId : string) :
  extractVideoId url = Some videoId ->
  videoId <> EmptyString /\ allChars isIdChar videoId = true.
Proof.
  induction url as [|c url IH]; cbn [extractVideoId].
  - destruct (matchForms videoUrlForms EmptyString) as [captured|] eqn:Hm; [|done].
    intros [= <-]. by eapply matchForms_id.
  - destruct (matchForms videoUrlForms (String c url)) as [captured|] eqn:Hm; [|exact IH].
    intros [= <-]. by eapply matchForms_id.
Qed.

(** X20.  Round trip: for an identifier that is not empty and has none
    of those four characters, each of the three URL forms (watch page,
    short link, embed page) followed by the identifier and by a rest
    that is empty or begins with one of the four characters gives the
    identifier back. *)
Theorem extractVideoId_round_trip (videoId rest : string) :
  videoId <> EmptyString ->
  allChars isIdChar videoId = true ->
  startsWith isIdChar rest = false ->
  extractVideoId ("https://www.youtube.com/watch?v=" +:+ videoId +:+ rest) = Some videoId /\
  extractVideoId ("https://youtu.be/" +:+ videoId +:+ rest) = Some videoId /\
  extractVideoId ("https://www.youtube.com/embed/" +:+ videoId +:+ rest) = Some videoId.
Proof.
  intros Hne Hid Hrest.
  pose proof (takeWhile_run isIdChar videoId rest Hid Hrest) as Htake.
  remember (videoId +:+ rest) as tail eqn:Htail. clear Htail.
  destruct videoId as [|c videoId']; [done|].
  repeat split; cbv [append]; cbn; rewrite Htake; reflexivity.
Qed.
Lemma extractVideoId_clean_witness :
  "dQw4w9WgXcQ" <> EmptyString /\ allChars isIdChar "dQw4w9WgXcQ" = true.
Proof.
  apply (extractVideoId_clean "see https://www.youtube.com/watch?v=dQw4w9WgXcQ&t=42s"
           "dQw4w9WgXcQ").
  reflexivity.
Defined.

Lemma extractVideoId_round_trip_witness :
  extractVideoId ("https://www.youtube.com/watch?v=" +:+ "dQw4w9WgXcQ" +:+ "&t=42s")
    = Some "dQw4w9WgXcQ" /\
  extractVideoId ("https://youtu.be/" +:+ "dQw4w9WgXcQ" +:+ "&t=42s")
    = Some "dQw4w9WgXcQ" /\
  extractVideoId ("https://www.youtube.com/embed/" +:+ "dQw4w9WgXcQ" +:+ "&t=42s")
    = Some "dQw4w9WgXcQ".
Proof.
  apply (extractVideoId_round_trip "dQw4w9WgXcQ" "&t=42s").
  - discriminate.
  - reflexivity.
  - reflexivity.
Defined.

End UrlExtras.

(** ** The educational-content filter and the fallback links *)

Module ContentExtras.

Import Server.

Lemma toLowerCase_app a b : toLowerCase (a +:+ b) = toLowerCase a +:+ toLowerCase b.
Proof.
  induction a as [|c a IH]; [done|].
  change (String (toLowerChar c) (toLowerCase (a +:+ b)) =
          String (toLowerChar c) (toLowerCase a +:+ toLowerCase b)).
  by f_equal.
Qed.

Lemma isPrefixOf_app w a x : isPrefixOf w a = true -> isPrefixOf w (a +:+ x) = true.
Proof.
  revert a. induction w as [|c w IH]; intros [|d a]; try done.
  change (String d a +:+ x) with (String d (a +:+ x)). cbn [isPrefixOf].
  intros [-> H]%andb_true_iff. by rewrite IH.
Qed.

Lemma includes_app_l a x w : includes a w = true -> includes (a +:+ x) w = true.
Proof.
  induction a as [|c a IH].
  - cbn [includes]. destruct (isPrefixOf w EmptyString) eqn:Hp; [|done].
    intros _. change (EmptyString +:+ x) with x. destruct w; [|done]. by destruct x.
  - change (String c a +:+ x) with (String c (a +:+ x)). cbn [includes].
    destruct (isPrefixOf w (String c a)) eqn:Hp.
    + intros _. apply (isPrefixOf_app w (String c a) x) in Hp.
      change (String c a +:+ x) with (String c (a +:+ x)) in Hp. by rewrite Hp.
    + intros H. rewrite IH by done. by case_match.
Qed.

Lemma includes_app_r a b w : includes b w = true -> includes (a +:+ b) w = true.
Proof.
  intros H. induction a as [|c a IH]; [done|].
  change (String c a +:+ b) with (String c (a +:+ b)). cbn [includes].
  rewrite IH. by case_match.
Qed.

(** A word without [sep] that starts in [a] inside [a ++ sep ++ b]
    ends in [a]. *)
Lemma isPrefixOf_before sep w a b :
  allChars (fun c => negb (Ascii.eqb c sep)) w = true ->
  isPrefixOf w (a +:+ String sep b) = true ->
  isPrefixOf w a = true.
Proof.
  revert a. induction w as [|x w IH]; intros a Hw; [by destruct a|].
  cbn [allChars] in Hw. apply andb_true_iff in Hw as [Hx Hw].
  destruct a as [|c a].
  - change (EmptyString +:+ String sep b) with (String sep b). cbn [isPrefixOf].
    intros [Heq _]%andb_true_iff. rewrite Heq in Hx. done.
  - change (String c a +:+ String sep b) with (String c (a +:+ String sep b)).
    cbn [isPrefixOf]. intros [-> H]%andb_true_iff. rewrite (IH a); done.
Qed.

Lemma includes_split sep w a b :
  w <> EmptyString ->
  allChars (fun c => negb (Ascii.eqb c sep)) w = true ->
  includes (a +:+ String sep b) w = true ->
  includes a w = true \/ includes b w = true.
Proof.
  intros Hne Hw. induction a as [|c a IH].
  - change (EmptyString +:+ String sep b) with (String sep b). cbn [includes].
    destruct (isPrefixOf w (String sep b)) eqn:Hp; [|by right].
    destruct w as [|x w]; [done|]. cbn [isPrefixOf allChars] in *.
    apply andb_true_iff in Hp as [Heq _]. apply andb_true_iff in Hw as [Hx _].
    rewrite Heq in Hx. done.
  - change (String c a +:+ String sep b) with (String c (a +:+ String sep b)).
    cbn [includes].
    destruct (isPrefixOf w (String c (a +:+ String sep b))) eqn:Hp.
    + intros _. left.
      apply (isPrefixOf_before sep w (String c a) b Hw) in Hp. by rewrite Hp.
    + intros [H|H]%IH; [left|by right]. rewrite H. by case_match.
Qed.

(** X21.  [isEducationalContent] accepts a video exactly when one of
    the nine keywords occurs, letter case aside, in its title or in its
    description: a keyword is never found across the space that joins
    the two. *)
Theorem isEducationalContent_iff (videoInfo : VideoInfo) :
  isEducationalContent videoInfo = true <->
  exists word,
    word ∈ educationalKeywords /\
    (includes (toLowerCase (title videoInfo)) word = true \/
     includes (toLowerCase (description videoInfo)) word = true).
Proof.
  unfold isEducationalContent. rewrite existsb_exists.
  rewrite !toLowerCase_app.
  change (toLowerCase " ") with " ".
  change (" " +:+ toLowerCase (description videoInfo))
    with (String " " (toLowerCase (description videoInfo))).
  split.
  - intros (word & Hin & Hinc). exists word. split; [by apply list_elem_of_In|].
    apply (includes_split " "%char); [| |exact Hinc].
    + cbn in Hin. intuition (subst; done).
    + cbn in Hin. intuition (subst; done).
  - intros (word & Hin%list_elem_of_In & [H|H]); exists word; (split; [done|]).
    + by apply includes_app_l.
    + apply includes_app_r. cbn [includes]. rewrite H.
      by case_match.
Qed.

Lemma isPrefixOf_trans u w s :
  isPrefixOf u w = true -> isPrefixOf w s = true -> isPrefixOf u s = true.
Proof.
  revert w s. induction u as [|x u IH]; intros [|y w] [|z s]; try done.
  cbn [isPrefixOf]. intros [Hxy Hu]%andb_true_iff [Hyz Hw]%andb_true_iff.
  apply Ascii.eqb_eq in Hxy as ->. rewrite Hyz. simpl. eauto.
Qed.

Lemma includes_prefix u w s :
  isPrefixOf u w = true -> includes s w = true -> includes s u = true.
Proof.
  intros Hu. induction s as [|c s IH]; cbn [includes].
  - destruct (isPrefixOf w EmptyString) eqn:Hw; [|done].
    intros _. by rewrite (isPrefixOf_trans u w EmptyString).
  - destruct (isPrefixOf w (String c s)) eqn:Hw.
    + intros _. by rewrite (isPrefixOf_trans u w (String c s)).
    + intros H. rewrite IH by done. by case_match.
Qed.

(** X22.  In the fallback of [generateRecommendations] the branch for
    topics that contain "json" is dead: every such topic contains
    "js", which is tested second, so it is sent to the Python or to the
    JavaScript pages and no topic is ever sent to the JSON page;
    likewise a topic that contains "javascript" never reaches the later
    test for "java". *)
Theorem fallbackW3Path_json_unreachable (topic : string) :
  fallbackW3Path topic <> "js/js_json_intro.asp" /\
  (includes (toLowerCase topic) "json" = true ->
     fallbackW3Path topic = "python/" \/ fallbackW3Path topic = "js/") /\
  (includes (toLowerCase topic) "javascript" = true ->
     fallbackW3Path topic = "python/" \/ fallbackW3Path topic = "js/").
Proof.
  unfold fallbackW3Path. set (t := toLowerCase topic).
  assert (Hjs : includes t "json" = true -> includes t "js" = true).
  { by apply includes_prefix. }
  destruct (includes t "python"); [repeat split; auto; done|].
  destruct (includes t "javascript") eqn:Hjavascript; cbn [orb];
    [repeat split; auto; done|].
  destruct (includes t "js") eqn:Hj; [repeat split; auto; done|].
  destruct (includes t "json") eqn:Hjson; [by specialize (Hjs eq_refl)|].
  repeat split; try done.
  repeat match goal with
         | |- context [if ?b then _ else _] => destruct b; cbn [orb]; try done
         end.
Qed.
End ContentExtras.

(** ** The quiz route *)

Module RouteExtras.

Import Server QuizExtras.

Section Route.
Context (fetchOrigin : string -> result (option OriginVideo)) (now : Z)
        (generateContent : Prompt -> result string)
        (JSON_parse : string -> result JSValue).

(** X23.  A 200 answer of [POST /generate-quiz] means: a video
    identifier was asked for, [getVideoInfo] returned the video of the
    answer, the video passed the educational filter, the quiz title is
    the video title, and the questions are what [generateQuiz] returned
    for it and are not empty; for a transcript of 5,000 characters or
    more and a count that is not negative there are at most as many
    questions as asked for, numbered 1, 2, ... *)
Theorem generateQuizRoute_success
    (db db' : TranscriptCache.Collection) (request : QuizRequest)
    (quizTitle quizDifficulty : string) (questions : list JSValue) (videoInfo : VideoInfo) :
  generateQuizRoute fetchOrigin now generateContent JSON_parse db request =
    (QuizReady quizTitle quizDifficulty questions videoInfo, db') ->
  exists key,
    requestedVideoId request = Some key /\ key <> EmptyString /\
    getVideoInfo fetchOrigin now db key true = (Some videoInfo, db') /\
    isEducationalContent videoInfo = true /\
    quizTitle = title videoInfo /\
    generateQuiz generateContent JSON_parse videoInfo (questionCountOf request)
      quizDifficulty = Ok questions /\
    questions <> [] /\
    (5000 <= Z.of_nat (String.length (transcript videoInfo)) ->
     0 <= questionCountOf request ->
     Z.of_nat (length questions) <= questionCountOf request /\ contiguousIds questions).
Proof.
  unfold generateQuizRoute. fold (requestedVideoId request).
  destruct (requestedVideoId request) as [key|]; [|done].
  destruct (String.eqb_spec key "") as [|Hkey]; [done|].
  destruct (getVideoInfo fetchOrigin now db key true) as [[info|] db1] eqn:Hinfo; [|done].
  destruct (isEducationalContent info) eqn:Hedu; cbn [negb]; [|done].
  destruct (generateQuiz generateContent JSON_parse info (questionCountOf request) _)
    as [[|q quiz]|e] eqn:Hquiz; try done.
  intros [= <- <- <- <- <-]. exists key.
  do 7 (split; [done|]). intros Hlong Hcount. split.
  - destruct (generateQuiz_long generateContent JSON_parse info (questionCountOf request)
                (default "medium" (difficulty request)) Hlong) as (cq & _ & Heq).
    rewrite Heq in Hquiz.
    destruct (MergerProps.mergeAndTrim_bounded cq (questionCountOf request))
      as (out & Hout & Hlen & _); [by eapply MergerProps.mergeAndTrim_Ok|done|].
    rewrite Hquiz in Hout. by injection Hout as <-.
  - destruct (generateQuiz_long generateContent JSON_parse info (questionCountOf request)
                (default "medium" (difficulty request)) Hlong) as (cq & _ & Heq).
    rewrite Heq in Hquiz.
    destruct (MergerProps.mergeAndTrim_bounded cq (questionCountOf request))
      as (out & Hout & _ & Hids); [by eapply MergerProps.mergeAndTrim_Ok|done|].
    rewrite Hquiz in Hout. by injection Hout as <-.
Qed.

(** X24.  When the body has a [videoUrl], the [videoId] of the body is
    ignored: the answer is the same whatever [videoId] says, and a URL
    in which no identifier is found is answered 400 although the body
    may hold a usable [videoId]. *)
Theorem generateQuizRoute_url_first
    (db : TranscriptCache.Collection) (request : QuizRequest) (otherId : string) :
  videoUrl request <> EmptyString ->
  generateQuizRoute fetchOrigin now generateContent JSON_parse db request =
    generateQuizRoute fetchOrigin now generateContent JSON_parse db
      {| videoUrl := videoUrl request; providedVideoId := otherId;
         numQuestions := numQuestions request; num_questions := num_questions request;
         difficulty := difficulty request |} /\
  (extractVideoId (videoUrl request) = None ->
   generateQuizRoute fetchOrigin now generateContent JSON_parse db request =
     (VideoIdRequired, db)).
Proof.
  intros Hurl. unfold generateQuizRoute, questionCountOf. cbn [videoUrl providedVideoId
    numQuestions num_questions difficulty].
  destruct (String.eqb_spec (videoUrl request) "") as [|_]; [done|]. cbn [negb].
  split; [done|]. by intros ->.
Qed.

(** X25.  When every call of the model fails the route never answers
    200: a request that gets as far as the quiz is answered 500
    "Failed to generate quiz questions", each failure having been
    turned into an empty chunk on the way. *)
Theorem generateQuizRoute_model_down
    (db : TranscriptCache.Collection) (request : QuizRequest) :
  (forall prompt, exists e, generateContent prompt = Throw e) ->
  statusOf (fst (generateQuizRoute fetchOrigin now generateContent JSON_parse db request))
    <> 200 /\
  (forall key videoInfo db',
      requestedVideoId request = Some key -> key <> EmptyString ->
      getVideoInfo fetchOrigin now db key true = (Some videoInfo, db') ->
      isEducationalContent videoInfo = true ->
      generateQuizRoute fetchOrigin now generateContent JSON_parse db request =
        (NoQuestions, db')).
Proof.
  intros Hdown. unfold generateQuizRoute. fold (requestedVideoId request). split.
  - destruct (requestedVideoId request) as [key|]; [|done].
    destruct (String.eqb key ""); [done|].
    destruct (getVideoInfo fetchOrigin now db key true) as [[info|] db1]; [|done].
    destruct (isEducationalContent info); cbn [negb]; [|done].
    by rewrite generateQuiz_all_failing.
  - intros key info db' -> Hkey -> ->. cbn [negb].
    destruct (String.eqb_spec key ""); [done|].
    by rewrite generateQuiz_all_failing.
Qed.

(** X26.  The educational filter runs after the fetch: a video that is
    not cached, is fetched with a transcript and is then refused as not
    educational is answered 400, yet its transcript has been stored in
    the cache. *)
Theorem generateQuizRoute_rejects_after_caching
    (db : TranscriptCache.Collection) (request : QuizRequest) (key : string)
    (video : OriginVideo) :
  requestedVideoId request = Some key -> key <> EmptyString ->
  db !! key = None ->
  fetchOrigin key = Ok (Some video) ->
  hours video * 60 + minutes video <= MAX_VIDEO_DURATION_MINUTES ->
  transcriptText video <> EmptyString ->
  Forall (fun word =>
            includes (toLowerCase (snippetTitle video +:+ " " +:+ snippetDescription video))
                     word = false) educationalKeywords ->
  exists db' doc,
    generateQuizRoute fetchOrigin now generateContent JSON_parse db request =
      (NotEducational, db') /\
    db' !! key = Some doc /\
    TranscriptCache.title doc = snippetTitle video /\
    TranscriptCache.accessCount doc = 1 /\
    TranscriptCache.cachedAt doc = now.
Proof.
  intros Hreq Hkey Hmiss Hfetch Hduration Htext Hedu.
  unfold generateQuizRoute. fold (requestedVideoId request). rewrite Hreq.
  destruct (String.eqb_spec key ""); [done|].
  unfold getVideoInfo, cacheCheck, TranscriptCache.findOne. rewrite Hmiss.
  unfold fetchAndCache. rewrite Hfetch.
  destruct (Z.ltb_spec MAX_VIDEO_DURATION_MINUTES (hours video * 60 + minutes video));
    [lia|].
  set (text := if MAX_TRANSCRIPT_LENGTH <? Z.of_nat (String.length (transcriptText video))
               then substring0 (Z.to_nat MAX_TRANSCRIPT_LENGTH) (transcriptText video)
               else transcriptText video).
  assert (Hpos : 0 < Z.of_nat (String.length text)).
  { unfold text.
    destruct (Z.ltb_spec MAX_TRANSCRIPT_LENGTH
                (Z.of_nat (String.length (transcriptText video)))) as [Hlong|Hshort].
    - rewrite CacheExtras.substring0_length. unfold MAX_TRANSCRIPT_LENGTH in *. lia.
    - destruct (transcriptText video); [done|]. cbn [String.length]. lia. }
  clearbody text.
  destruct (Z.ltb_spec 0 (Z.of_nat (String.length text))); [|lia]. cbn [andb].
  assert (Hrefused : existsb (fun word =>
            includes (toLowerCase (snippetTitle video +:+ " " +:+ snippetDescription video)) word)
            educationalKeywords = false).
  { apply not_true_is_false. intros (word & Hin & Hword)%existsb_exists.
    rewrite Forall_forall in Hedu. rewrite (Hedu word) in Hword; [done|].
    by apply list_elem_of_In. }
  unfold isEducationalContent. cbn [title description]. rewrite Hrefused. cbn [negb].
  do 2 eexists. split; [reflexivity|].
  unfold TranscriptCache.findOneAndUpdate. rewrite Hmiss, lookup_insert_eq.
  by repeat split.
Qed.
End Route.

Lemma generateQuizRoute_success_witness :
  exists quizTitle quizDifficulty questions videoInfo db',
    generateQuizRoute Samples.sampleOrigin 1000 Samples.sampleModel Samples.sampleParse
      ∅ Samples.quizRequest = (QuizReady quizTitle quizDifficulty questions videoInfo, db') /\
    exists key,
      requestedVideoId Samples.quizRequest = Some key /\ key <> EmptyString /\
      getVideoInfo Samples.sampleOrigin 1000 ∅ key true = (Some videoInfo, db') /\
      isEducationalContent videoInfo = true /\
      quizTitle = title videoInfo /\
      generateQuiz Samples.sampleModel Samples.sampleParse videoInfo
        (questionCountOf Samples.quizRequest) quizDifficulty = Ok questions /\
      questions <> [] /\
      (5000 <= Z.of_nat (String.length (transcript videoInfo)) ->
       0 <= questionCountOf Samples.quizRequest ->
       Z.of_nat (length questions) <= questionCountOf Samples.quizRequest /\
       contiguousIds questions).
Proof.
  do 5 eexists. split; [vm_compute; reflexivity|].
  apply (generateQuizRoute_success Samples.sampleOrigin 1000 Samples.sampleModel
           Samples.sampleParse ∅).
  vm_compute. reflexivity.
Defined.

Lemma generateQuizRoute_url_first_witness :
  generateQuizRoute Samples.sampleOrigin 1000 Samples.sampleModel Samples.sampleParse
    ∅ Samples.urlRequest =
  generateQuizRoute Samples.sampleOrigin 1000 Samples.sampleModel Samples.sampleParse ∅
    {| videoUrl := videoUrl Samples.urlRequest; providedVideoId := "zzz999";
       numQuestions := numQuestions Samples.urlRequest;
       num_questions := num_questions Samples.urlRequest;
       difficulty := difficulty Samples.urlRequest |} /\
  (extractVideoId (videoUrl Samples.urlRequest) = None ->
   generateQuizRoute Samples.sampleOrigin 1000 Samples.sampleModel Samples.sampleParse
     ∅ Samples.urlRequest = (VideoIdRequired, ∅)).
Proof.
  apply (generateQuizRoute_url_first Samples.sampleOrigin 1000 Samples.sampleModel
           Samples.sampleParse ∅ Samples.urlRequest "zzz999").
  discriminate.
Defined.

Lemma generateQuizRoute_model_down_witness :
  statusOf (fst (generateQuizRoute Samples.sampleOrigin 1000 Samples.failingModel
                   Samples.sampleParse ∅ Samples.quizRequest)) <> 200 /\
  (forall key videoInfo db',
      requestedVideoId Samples.quizRequest = Some key -> key <> EmptyString ->
      getVideoInfo Samples.sampleOrigin 1000 ∅ key true = (Some videoInfo, db') ->
      isEducationalContent videoInfo = true ->
      generateQuizRoute Samples.sampleOrigin 1000 Samples.failingModel
        Samples.sampleParse ∅ Samples.quizRequest = (NoQuestions, db')).
Proof.
  apply (generateQuizRoute_model_down Samples.sampleOrigin 1000 Samples.failingModel
           Samples.sampleParse ∅ Samples.quizRequest).
  intros prompt. eexists. reflexivity.
Defined.

Lemma generateQuizRoute_rejects_after_caching_witness :
  exists db' doc,
    generateQuizRoute Samples.musicOrigin 1000 Samples.sampleModel Samples.sampleParse
      ∅ Samples.musicRequest = (NotEducational, db') /\
    db' !! "mus1c" = Some doc /\
    TranscriptCache.title doc = snippetTitle Samples.musicVideo /\
    TranscriptCache.accessCount doc = 1 /\
    TranscriptCache.cachedAt doc = 1000.
Proof.
  apply (generateQuizRoute_rejects_after_caching Samples.musicOrigin 1000
           Samples.sampleModel Samples.sampleParse ∅ Samples.musicRequest "mus1c"
           Samples.musicVideo).
  - reflexivity.
  - discriminate.
  - reflexivity.
  - reflexivity.
  - vm_compute. discriminate.
  - discriminate.
  - repeat constructor.
Defined.

End RouteExtras.

(** ** The login route *)

Module LoginExtras.

Import Auth.

Section Login.
Context (comparePassword : string -> string -> bool) (generateToken : User -> string).


Lemma cleanUp_lookup now attemptsByIp address :
  default [] (cleanUp now attemptsByIp !! address) =
  withinWindow now (default [] (attemptsByIp !! address)).
Proof.
  unfold cleanUp. rewrite lookup_fmap. by destruct (attemptsByIp !! address).
Qed.

(** What one request does to the attempts recorded for an address. *)
Lemma login_attempts st request now address :
  attemptsOf (snd (Auth.login comparePassword generateToken st request now)) address =
  withinWindow now (attemptsOf st address) ++
    (if decide (ip request = address /\ loginStatus (fst (Auth.login comparePassword generateToken st request now)) = 401)
     then [now] else []).
Proof.
  unfold attemptsOf, Auth.login.
  pose proof (cleanUp_lookup now (loginAttempts st) address) as Hclean.
  pose proof (cleanUp_lookup now (loginAttempts st) (ip request)) as Hown.
  set (cleaned := cleanUp now (loginAttempts st)) in *.
  set (attempts := default [] (cleaned !! ip request)) in *.
  assert (Hrecord : default [] (<[ip request := attempts ++ [now]]> cleaned !! address) =
                    withinWindow now (default [] (loginAttempts st !! address)) ++
                      (if decide (ip request = address) then [now] else [])).
  { destruct (decide (ip request = address)) as [<-|Hne].
    - rewrite lookup_insert_eq. cbn [default]. by rewrite <- Hown.
    - rewrite lookup_insert_ne by done. by rewrite Hclean, app_nil_r. }
  assert (Hkeep : default [] (cleaned !! address) =
                  withinWindow now (default [] (loginAttempts st !! address)) ++ []).
  { by rewrite app_nil_r. }
  destruct (MAX_LOGIN_ATTEMPTS <=? _).
  { cbn [fst snd loginAttempts loginStatus]. rewrite decide_False by (intros [_ ?]; done).
    exact Hkeep. }
  destruct (_ || _).
  { cbn [fst snd loginAttempts loginStatus]. rewrite decide_False by (intros [_ ?]; done).
    exact Hkeep. }
  destruct (findUser _ _) as [[i user]|].
  2:{ cbn [fst snd loginAttempts loginStatus]. rewrite Hrecord.
      f_equal. destruct (decide (ip request = address)).
      - by rewrite decide_True.
      - by rewrite decide_False by (intros [? _]; done). }
  destruct (isLocked user).
  { cbn [fst snd loginAttempts loginStatus]. rewrite decide_False by (intros [_ ?]; done).
    exact Hkeep. }
  destruct (negb _).
  - cbn [fst snd loginAttempts loginStatus]. rewrite Hrecord.
    f_equal. destruct (decide (ip request = address)).
    + by rewrite decide_True.
    + by rewrite decide_False by (intros [? _]; done).
  - cbn [fst snd loginAttempts loginStatus]. rewrite decide_False by (intros [_ ?]; done).
    exact Hkeep.
Qed.

Lemma withinWindow_later now horizon attempts :
  now <= horizon ->
  withinWindow horizon (withinWindow now attempts) = withinWindow horizon attempts.
Proof.
  intros Hle. unfold withinWindow. induction attempts as [|t l IH]; [done|].
  destruct (decide (now - t < LOGIN_TIMEOUT)) as [Hin|Hout].
  - rewrite (filter_cons_True _ t l) by done.
    destruct (decide (horizon - t < LOGIN_TIMEOUT)).
    + rewrite !(filter_cons_True _ t) by done. by rewrite IH.
    + rewrite !(filter_cons_False _ t) by done. exact IH.
  - rewrite (filter_cons_False _ t l) by done.
    rewrite (filter_cons_False _ t l) by lia. exact IH.
Qed.

Lemma withinWindow_app horizon l1 l2 :
  withinWindow horizon (l1 ++ l2) = withinWindow horizon l1 ++ withinWindow horizon l2.
Proof. apply filter_app. Qed.

Lemma loginRun_counts st steps horizon address :
  Forall (fun step => snd step <= horizon /\ horizon - snd step < LOGIN_TIMEOUT) steps ->
  length (withinWindow horizon
            (attemptsOf (snd (loginRun comparePassword generateToken st steps)) address)) =
  (length (withinWindow horizon (attemptsOf st address)) +
   rejections address steps (fst (loginRun comparePassword generateToken st steps)))%nat.
Proof.
  intros Hsteps. revert st. induction Hsteps as [|[request now] later [Hle Hin] _ IH];
    intros st; cbn [loginRun]; [cbn; lia|].
  pose proof (login_attempts st request now address) as Hstep.
  destruct (Auth.login comparePassword generateToken st request now) as [response st'] eqn:Hlogin.
  specialize (IH st').
  destruct (loginRun comparePassword generateToken st' later) as [responses final].
  cbn [fst snd] in *. rewrite IH, Hstep. cbn [rejections].
  rewrite withinWindow_app, withinWindow_later by done. rewrite length_app.
  destruct (decide (ip request = address /\ loginStatus response = 401)).
  - unfold withinWindow at 2. rewrite filter_cons_True by done. cbn. lia.
  - cbn. lia.
Qed.

(** X27.  Rate limiting of requests that are handled one after the
    other, none overlapping another: once five requests from one
    address were answered 401 within the last 15 minutes, the next
    request from that address is answered 429 before anything else is
    looked at, right password or not; it records no attempt and names a
    wait of at least one second.  (Requests that overlap at an [await]
    of the handler write back the attempts they read when they started;
    they are outside [loginRun].) *)
Theorem login_five_rejections_block
    (st : State) (steps : list (LoginRequest * Z)) (request : LoginRequest) (now : Z) :
  Forall (fun step => snd step <= now /\ now - snd step < LOGIN_TIMEOUT) steps ->
  (5 <= rejections (ip request) steps
          (fst (loginRun comparePassword generateToken st steps)))%nat ->
  let final := snd (loginRun comparePassword generateToken st steps) in
  exists retryAfter,
    Auth.login comparePassword generateToken final request now =
      (TooManyAttempts retryAfter,
       {| loginAttempts := cleanUp now (loginAttempts final); users := users final |}) /\
    1 <= retryAfter.
Proof.
  intros Hsteps Hcount final.
  pose proof (loginRun_counts st steps now (ip request) Hsteps) as Hlen.
  fold final in Hlen. unfold Auth.login.
  pose proof (cleanUp_lookup now (loginAttempts final) (ip request)) as Hclean.
  fold (attemptsOf final (ip request)) in Hclean. rewrite Hclean.
  set (recent := withinWindow now (attemptsOf final (ip request))) in *.
  destruct (Z.leb_spec MAX_LOGIN_ATTEMPTS (Z.of_nat (length recent))) as [_|Hlt];
    [|unfold MAX_LOGIN_ATTEMPTS in Hlt; lia].
  eexists. split; [reflexivity|].
  destruct recent as [|t recent'] eqn:Hrecent; [cbn in Hlen; lia|].
  assert (Hin : t ∈ withinWindow now (attemptsOf final (ip request))).
  { fold recent. rewrite Hrecent. by left. }
  apply list_elem_of_filter in Hin as [Hin _].
  cbn [head default]. unfold TranscriptUtils.ceilDiv.
  pose proof (Z.div_mod (- (t + LOGIN_TIMEOUT - now)) 1000 ltac:(lia)).
  pose proof (Z.mod_pos_bound (- (t + LOGIN_TIMEOUT - now)) 1000 ltac:(lia)).
  unfold id. lia.
Qed.

Lemma findUser_lookup identifier us i user :
  findUser identifier us = Some (i, user) -> us !! i = Some user.
Proof. unfold findUser. by intros (? & _ & _)%list_find_Some. Qed.

(** One request never changes a locked account. *)
Lemma login_keeps_locked st request now (i : nat) user :
  users st !! i = Some user ->
  isLocked user = true ->
  users (snd (Auth.login comparePassword generateToken st request now)) !! i = Some user.
Proof.
  intros Hi Hlocked. unfold Auth.login.
  destruct (MAX_LOGIN_ATTEMPTS <=? _); [done|].
  destruct (_ || _); [done|].
  destruct (findUser _ _) as [[j found]|] eqn:Hfind; [|done].
  apply findUser_lookup in Hfind.
  destruct (isLocked found) eqn:Hfound; [done|].
  assert (Hne : j <> i) by (intros ->; congruence).
  destruct (negb _); cbn [snd users]; by rewrite list_lookup_insert_ne.
Qed.

(** X28.  A locked account stays locked: no run of login requests
    changes the document of a locked user, the lock time included, and
    a request that names the user is answered 429, 400 or 423, never
    200, whatever the password and however late it comes:
    [lockUntil] is not read by the route. *)
Theorem login_locked_account_stays_locked
    (st : State) (i : nat) (user : User) :
  users st !! i = Some user ->
  isLocked user = true ->
  (forall steps,
      users (snd (loginRun comparePassword generateToken st steps)) !! i = Some user) /\
  (forall request now,
      findUser (loginIdentifierOf request) (users st) = Some (i, user) ->
      let status :=
        loginStatus (fst (Auth.login comparePassword generateToken st request now)) in
      status = 429 \/ status = 400 \/ status = 423).
Proof.
  intros Hi Hlocked. split.
  - intros steps. revert st Hi. induction steps as [|[request now] later IH]; intros st Hi;
      cbn [loginRun]; [done|].
    pose proof (login_keeps_locked st request now i user Hi Hlocked) as Hstep.
    destruct (Auth.login comparePassword generateToken st request now) as [response st'].
    specialize (IH st' Hstep).
    by destruct (loginRun comparePassword generateToken st' later).
  - intros request now Hfind status. subst status. unfold Auth.login.
    fold (loginIdentifierOf request).
    destruct (MAX_LOGIN_ATTEMPTS <=? _); [by left|].
    destruct (_ || _); [by right; left|].
    rewrite Hfind, Hlocked. by right; right.
Qed.

(** X29.  The wrong password that brings the count of failures to five
    or more locks the account for good: the document is stored locked,
    with [lockUntil] thirty minutes ahead and the count raised by one,
    the answer names [5 - count] remaining attempts, and no later run
    of login requests changes the document again. *)
Theorem login_fifth_wrong_password_locks
    (st : State) (request : LoginRequest) (now : Z) (i : nat) (user : User)
    (remaining : option Z) :
  findUser (loginIdentifierOf request) (users st) = Some (i, user) ->
  4 <= failedLoginAttempts user ->
  fst (Auth.login comparePassword generateToken st request now)
    = InvalidCredentials remaining ->
  let st' := snd (Auth.login comparePassword generateToken st request now) in
  exists user',
    users st' !! i = Some user' /\
    isLocked user' = true /\
    lockUntil user' = Some (now + 30 * 60 * 1000) /\
    failedLoginAttempts user' = failedLoginAttempts user + 1 /\
    remaining = Some (4 - failedLoginAttempts user) /\
    comparePassword (reqPassword request) (password user) = false /\
    forall steps,
      users (snd (loginRun comparePassword generateToken st' steps)) !! i = Some user'.
Proof.
  intros Hfind Hcount. pose proof (findUser_lookup _ _ _ _ Hfind) as Hi.
  intros Hresp st'.
  assert (Hstep : exists user',
    users st' !! i = Some user' /\ isLocked user' = true /\
    lockUntil user' = Some (now + 30 * 60 * 1000) /\
    failedLoginAttempts user' = failedLoginAttempts user + 1 /\
    remaining = Some (4 - failedLoginAttempts user) /\
    comparePassword (reqPassword request) (password user) = false).
  { subst st'. revert Hresp. unfold Auth.login. fold (loginIdentifierOf request).
    destruct (MAX_LOGIN_ATTEMPTS <=? _); [done|].
    destruct (_ || _); [done|].
    rewrite Hfind. destruct (isLocked user); [done|].
    destruct (comparePassword _ _) eqn:Hcmp; cbn [negb fst snd users]; [done|].
    intros [= <-].
    destruct (Z.leb_spec 5 (failedLoginAttempts user + 1)); [|lia].
    eexists. split.
    - apply list_lookup_insert_eq. by eapply lookup_lt_Some.
    - cbn. repeat split. f_equal. lia. }
  destruct Hstep as (user' & Hi' & Hlocked & Huntil & Hfailed & Hrem & Hcmp).
  exists user'. repeat split; try done.
  intros steps. revert Hi'. generalize st'. clear -Hlocked.
  induction steps as [|[req t] later IH]; intros s Hs; cbn [loginRun]; [done|].
  pose proof (login_keeps_locked s req t i user' Hs Hlocked) as Hstep.
  destruct (Auth.login comparePassword generateToken s req t) as [response s'].
  specialize (IH s' Hstep).
  by destruct (loginRun comparePassword generateToken s' later).
Qed.

(** X30.  A 200 answer means: the request names a stored user that is
    not locked and whose password compares equal; the stored document
    keeps its identity, gets [lastLogin = now] and a count of failures
    reset to zero; the address had fewer than five recent attempts and
    no attempt is recorded for it. *)
Theorem login_success
    (st : State) (request : LoginRequest) (now : Z) (token : string) (user' : User) :
  fst (Auth.login comparePassword generateToken st request now) = LoggedIn token user' ->
  let st' := snd (Auth.login comparePassword generateToken st request now) in
  exists (i : nat) user,
    findUser (loginIdentifierOf request) (users st) = Some (i, user) /\
    comparePassword (reqPassword request) (password user) = true /\
    isLocked user = false /\
    users st' !! i = Some user' /\
    _id user' = _id user /\ email user' = email user /\
    lastLogin user' = Some now /\
    failedLoginAttempts user' = Z.min 0 (failedLoginAttempts user) /\
    isLocked user' = false /\
    attemptsOf st' (ip request) = withinWindow now (attemptsOf st (ip request)) /\
    (Z.of_nat (length (withinWindow now (attemptsOf st (ip request)))) < MAX_LOGIN_ATTEMPTS).
Proof.
  intros Hresp st'.
  pose proof (login_attempts st request now (ip request)) as Hatt.
  fold st' in Hatt. rewrite Hresp in Hatt. cbn [loginStatus] in Hatt.
  rewrite decide_False in Hatt by (intros [_ ?]; done). rewrite app_nil_r in Hatt.
  subst st'. revert Hresp Hatt. unfold Auth.login. fold (loginIdentifierOf request).
  pose proof (cleanUp_lookup now (loginAttempts st) (ip request)) as Hclean.
  fold (attemptsOf st (ip request)) in Hclean. rewrite Hclean.
  destruct (Z.leb_spec MAX_LOGIN_ATTEMPTS
              (Z.of_nat (length (withinWindow now (attemptsOf st (ip request))))));
    [done|].
  destruct (_ || _); [done|].
  destruct (findUser _ _) as [[i user]|] eqn:Hfind; [|done].
  pose proof (findUser_lookup _ _ _ _ Hfind) as Hi.
  destruct (isLocked user) eqn:Hlocked; [done|].
  destruct (comparePassword _ _) eqn:Hcmp; cbn [negb fst snd users]; [|done].
  intros [= <- <-] Hatt. exists i, user.
  split; [done|]. split; [done|]. split; [done|].
  split; [apply list_lookup_insert_eq; by eapply lookup_lt_Some|].
  destruct (Z.ltb_spec 0 (failedLoginAttempts user)); cbn;
    repeat split; try done; lia.
Qed.
End Login.

Lemma login_five_rejections_block_witness :
  let request := Samples.loginOf "10.0.0.7" "alice" "correct horse" in
  let final :=
    snd (loginRun Samples.plainCompare Samples.plainToken Samples.freshState
           Samples.guessing) in
  exists retryAfter,
    Auth.login Samples.plainCompare Samples.plainToken final request 300000 =
      (TooManyAttempts retryAfter,
       {| loginAttempts := cleanUp 300000 (loginAttempts final); users := users final |}) /\
    1 <= retryAfter.
Proof.
  apply (login_five_rejections_block Samples.plainCompare Samples.plainToken
           Samples.freshState Samples.guessing
           (Samples.loginOf "10.0.0.7" "alice" "correct horse") 300000).
  - apply (bool_decide_unpack _). vm_compute. exact I.
  - vm_compute. lia.
Defined.

Lemma login_locked_account_stays_locked_witness :
  (forall steps,
      users (snd (loginRun Samples.plainCompare Samples.plainToken Samples.freshState steps))
        !! 1%nat = Some Samples.bob) /\
  (forall request now,
      findUser (loginIdentifierOf request) (users Samples.freshState)
        = Some (1%nat, Samples.bob) ->
      let status :=
        loginStatus (fst (Auth.login Samples.plainCompare Samples.plainToken
                            Samples.freshState request now)) in
      status = 429 \/ status = 400 \/ status = 423).
Proof.
  apply (login_locked_account_stays_locked Samples.plainCompare Samples.plainToken
           Samples.freshState 1%nat Samples.bob); reflexivity.
Defined.

Lemma login_fifth_wrong_password_locks_witness :
  let request := Samples.loginOf "10.0.0.9" "alice" "wrong" in
  let st' := snd (Auth.login Samples.plainCompare Samples.plainToken
                    Samples.freshState request 5000) in
  exists user',
    users st' !! 0%nat = Some user' /\
    isLocked user' = true /\
    lockUntil user' = Some (5000 + 30 * 60 * 1000) /\
    failedLoginAttempts user' = failedLoginAttempts Samples.alice + 1 /\
    Some 0 = Some (4 - failedLoginAttempts Samples.alice) /\
    Samples.plainCompare (reqPassword request) (password Samples.alice) = false /\
    forall steps,
      users (snd (loginRun Samples.plainCompare Samples.plainToken st' steps)) !! 0%nat
        = Some user'.
Proof.
  apply (login_fifth_wrong_password_locks Samples.plainCompare Samples.plainToken
           Samples.freshState (Samples.loginOf "10.0.0.9" "alice" "wrong") 5000
           0%nat Samples.alice (Some 0)).
  - vm_compute. reflexivity.
  - vm_compute. discriminate.
  - vm_compute. reflexivity.
Defined.

Lemma login_success_witness :
  let request := Samples.loginOf "10.0.0.9" "alice" "correct horse" in
  let st' := snd (Auth.login Samples.plainCompare Samples.plainToken
                    Samples.freshState request 5000) in
  exists token user',
    fst (Auth.login Samples.plainCompare Samples.plainToken Samples.freshState request 5000)
      = LoggedIn token user' /\
    exists (i : nat) user,
      findUser (loginIdentifierOf request) (users Samples.freshState) = Some (i, user) /\
      Samples.plainCompare (reqPassword request) (password user) = true /\
      isLocked user = false /\
      users st' !! i = Some user' /\
      _id user' = _id user /\ email user' = email user /\
      lastLogin user' = Some 5000 /\
      failedLoginAttempts user' = Z.min 0 (failedLoginAttempts user) /\
      isLocked user' = false /\
      attemptsOf st' (ip request) =
        withinWindow 5000 (attemptsOf Samples.freshState (ip request)) /\
      (Z.of_nat (length (withinWindow 5000 (attemptsOf Samples.freshState (ip request))))
         < MAX_LOGIN_ATTEMPTS).
Proof.
  intros request st'. do 2 eexists. split; [vm_compute; reflexivity|].
  eapply (login_success Samples.plainCompare Samples.plainToken Samples.freshState
            request 5000).
  vm_compute. reflexivity.
Defined.

End LoginExtras.
